(** * th-helpers: the result-rate formulas and the Labs event scraper

    A shallow embedding of
    - [src/th_helpers/components/result_rate.py] (module [ResultRate]) and
    - [scripts/generate_lab_events.py] (module [LabEvents]),
    with the properties of the specification proved about them. *)

From Stdlib Require Import ZArith NArith String Ascii.
From Stdlib Require PrimFloat SpecFloat FloatOps.
From stdpp Require Import base list gmap sorting.

Local Open Scope Z_scope.

(** ** Python values shared by the two modules *)

(** A Python [str] is a sequence of code points. *)
Definition pystr := list N.

(** An ASCII literal as a [pystr]. *)
Definition lit (s : string) : pystr :=
  map N_of_ascii (list_ascii_of_string s).

(** The exceptions the two modules can raise or meet. *)
Inductive exn :=
  | ValueError (msg : pystr)
  | KeyError (key : pystr)
  | ZeroDivisionError
  | OverflowError
  | AttributeError
  | ClientError (url : pystr).

(** A computation either returns or raises. *)
Inductive result (A : Type) :=
  | Ok (a : A)
  | Raise (e : exn).
Arguments Ok {A} a.
Arguments Raise {A} e.

#[global] Instance result_ret : MRet result := fun _ a => Ok a.
#[global] Instance result_bind : MBind result := fun _ _ k r =>
  match r with
  | Ok a => k a
  | Raise e => Raise e
  end.

(** ** Python numbers: [int] and [float] *)

Module PyNum.

Abbreviation float := PrimFloat.float.

Inductive number :=
  | PyInt (z : Z)
  | PyFloat (f : float).

(** The binary64 value nearest to [(-1)^neg * n / d] (ties to even), for
    [d > 0]: the quotient is taken with more than 64 significant bits and a
    sticky last bit, then rounded once. *)
Definition round_ratio (neg : bool) (n d : Z) : float :=
  if n =? 0 then (if neg then PrimFloat.neg_zero else PrimFloat.zero)
  else
    let k := Z.max 0 (66 + Z.log2 d - Z.log2 n) in
    let num := Z.shiftl n k in
    let q := num / d in
    let sticky := if num mod d =? 0 then 0 else 1 in
    let m := 2 * q + sticky in
    FloatOps.SF2Prim
      (SpecFloat.binary_normalize FloatOps.prec FloatOps.emax
         (if neg then - m else m) (- k - 1) false).

(** [float(z)]: nearest binary64, [OverflowError] when out of range. *)
Definition float_of_int (z : Z) : result float :=
  let f := round_ratio (z <? 0) (Z.abs z) 1 in
  if PrimFloat.is_infinity f then Raise OverflowError else Ok f.

Definition to_float (a : number) : result float :=
  match a with
  | PyInt z => float_of_int z
  | PyFloat f => Ok f
  end.

(** [a + b] *)
Definition add (a b : number) : result number :=
  match a, b with
  | PyInt x, PyInt y => Ok (PyInt (x + y))
  | _, _ =>
      fa ← to_float a; fb ← to_float b;
      Ok (PyFloat (PrimFloat.add fa fb))
  end.

(** [a * b] *)
Definition mul (a b : number) : result number :=
  match a, b with
  | PyInt x, PyInt y => Ok (PyInt (x * y))
  | _, _ =>
      fa ← to_float a; fb ← to_float b;
      Ok (PyFloat (PrimFloat.mul fa fb))
  end.

(** [a == 0] *)
Definition is_zero (a : number) : bool :=
  match a with
  | PyInt z => z =? 0
  | PyFloat f => PrimFloat.eqb f PrimFloat.zero
  end.

(** [a / b], true division. Both operands are converted before the divisor
    is tested; an [int] divisor converts to [0.0] exactly when it is [0]. *)
Definition truediv (a b : number) : result number :=
  match a, b with
  | PyInt x, PyInt y =>
      if y =? 0 then Raise ZeroDivisionError
      else
        let f := round_ratio (xorb (x <? 0) (y <? 0)) (Z.abs x) (Z.abs y) in
        if PrimFloat.is_infinity f then Raise OverflowError
        else Ok (PyFloat f)
  | _, PyInt y =>
      fa ← to_float a; fb ← float_of_int y;
      if y =? 0 then Raise ZeroDivisionError
      else Ok (PyFloat (PrimFloat.div fa fb))
  | _, PyFloat fb =>
      fa ← to_float a;
      if PrimFloat.eqb fb PrimFloat.zero then Raise ZeroDivisionError
      else Ok (PyFloat (PrimFloat.div fa fb))
  end.

(** [round(f, 1)] on a float: the exact value is rounded to one decimal,
    ties to even, and the decimal is read back as the nearest float. *)
Definition round1_float (f : float) : float :=
  match FloatOps.Prim2SF f with
  | SpecFloat.S754_finite s m e =>
      match e with
      | Zneg p =>
          let n := Zpos m * 10 in
          let d := Zpos (Pos.iter xO 1%positive p) in
          let q := n / d in
          let r := n mod d in
          let q' :=
            match 2 * r ?= d with
            | Lt => q
            | Gt => q + 1
            | Eq => if Z.even q then q else q + 1
            end in
          round_ratio s q' 10
      | _ => f
      end
  | _ => f
  end.

(** [round(a, 1)]: an [int] is returned as it is. *)
Definition round1 (a : number) : number :=
  match a with
  | PyInt z => PyInt z
  | PyFloat f => PyFloat (round1_float f)
  end.

(** [a == b] on numbers: an [int] and a [float] are compared by their exact
    values. *)
Definition num_eqb (a b : number) : bool :=
  let mixed (z : Z) (f : float) :=
    match FloatOps.Prim2SF f with
    | SpecFloat.S754_zero _ => z =? 0
    | SpecFloat.S754_finite s m e =>
        let v := if s then Zneg m else Zpos m in
        match e with
        | Zneg p =>
            let d := Zpos (Pos.iter xO 1%positive p) in
            (v mod d =? 0) && (z =? v / d)
        | _ => z =? Z.shiftl v e
        end
    | _ => false
    end in
  match a, b with
  | PyInt x, PyInt y => x =? y
  | PyFloat f, PyFloat g => PrimFloat.eqb f g
  | PyInt x, PyFloat g => mixed x g
  | PyFloat f, PyInt y => mixed y f
  end.

(** The float a decimal literal with one fractional digit denotes:
    [decimal1 667] is the float written [66.7]. *)
Definition decimal1 (n : Z) : float :=
  round_ratio (n <? 0) (Z.abs n) 10.

End PyNum.


(** ** [th_helpers.components.result_rate] *)

Module ResultRate.

Import PyNum.

(** [utils.constants] is not among the sources: the five strategy keys of
    [c.RESULT_RATE_STRATEGY] are the fields of a record of constants. *)
Record RESULT_RATE_STRATEGY := {
  IGNORE_TIES : pystr;
  TIES_COUNT_AS_LOSSES : pystr;
  TIES_COUNT_AS_HALF_WIN : pystr;
  TIES_COUNT_AS_THIRD_WIN : pystr;
  TIES_COUNT_AS_WINS : pystr
}.

(** The value stored under a strategy key: the dictionary with the three
    distinct field names of [c.RESULT_RATE_FIELD]. *)
Record RESULT_RATE_FIELD := {
  LABEL : pystr;
  FORMULA : pystr;
  CALCULATE : number -> number -> number -> result (number * number)
}.

Definition _RESULT_RATES (c : RESULT_RATE_STRATEGY)
  : list (pystr * RESULT_RATE_FIELD) :=
  [ (IGNORE_TIES c,
     {| LABEL := lit "Ignore Ties";
        FORMULA := lit "% = $\frac{W}{W+L}$";
        CALCULATE := fun w l t =>
          d ← add w l; Ok (w, d) |});
    (TIES_COUNT_AS_LOSSES c,
     {| LABEL := lit "Count Ties as Losses";
        FORMULA := lit "% = $\frac{W}{W+L+T}$";
        CALCULATE := fun w l t =>
          wl ← add w l; d ← add wl t; Ok (w, d) |});
    (TIES_COUNT_AS_HALF_WIN c,
     {| LABEL := lit "Count Ties as 1/2 Win";
        FORMULA := lit "% = $\frac{W + \frac{T}{2}}{W+L+T}$";
        CALCULATE := fun w l t =>
          h ← truediv t (PyInt 2); n ← add w h;
          wl ← add w l; d ← add wl t; Ok (n, d) |});
    (TIES_COUNT_AS_THIRD_WIN c,
     {| LABEL := lit "Count Ties as 1/3 Win";
        FORMULA := lit "% = $\frac{W + \frac{T}{3}}{W+L+T}$";
        CALCULATE := fun w l t =>
          h ← truediv t (PyInt 3); n ← add w h;
          wl ← add w l; d ← add wl t; Ok (n, d) |});
    (TIES_COUNT_AS_WINS c,
     {| LABEL := lit "Count Ties as Wins";
        FORMULA := lit "% = $\frac{W + T}{W+L+T}$";
        CALCULATE := fun w l t =>
          n ← add w t; wl ← add w l; d ← add wl t; Ok (n, d) |}) ].

(** The dictionary comprehension: a later entry replaces an earlier one
    with the same key. *)
Definition RESULT_RATE_STRATEGY_DETAILS (c : RESULT_RATE_STRATEGY)
  : gmap pystr RESULT_RATE_FIELD :=
  foldl (fun m v => <[ v.1 := v.2 ]> m) ∅ (_RESULT_RATES c).

(** The [dcc.Markdown] component, by its arguments. *)
Record Markdown := {
  children : pystr;
  className : pystr;
  mathjax : bool
}.

Definition create_result_rate_label (c : RESULT_RATE_STRATEGY)
    (strategy : pystr) (formula_only : bool) : option Markdown :=
  match RESULT_RATE_STRATEGY_DETAILS c !! strategy with
  | None => None
  | Some d =>
      let label := FORMULA d in
      let label :=
        if negb formula_only then LABEL d ++ lit ": " ++ label else label in
      Some {| children := label; className := lit "m-0"; mathjax := true |}
  end.

Definition calculate_result_rate (c : RESULT_RATE_STRATEGY)
    (strategy : pystr) (wins losses ties : number) (percentage : bool)
  : result number :=
  let tried :=
    match RESULT_RATE_STRATEGY_DETAILS c !! strategy with
    | None => Raise (KeyError strategy)
    | Some d => CALCULATE d wins losses ties
    end in
  match tried with
  | Raise (KeyError _) =>
      Raise (ValueError (lit "Unknown result rate strategy: " ++ strategy))
  | Raise e => Raise e
  | Ok (numerator, denominator) =>
      rate ← (if is_zero denominator then Ok (PyInt 0)
              else truediv numerator denominator);
      if percentage
      then (x ← mul rate (PyInt 100); Ok (round1 x))
      else Ok rate
  end.

(** The five keys of the formula table. *)
Definition strategy_keys (c : RESULT_RATE_STRATEGY) : list pystr :=
  [ IGNORE_TIES c; TIES_COUNT_AS_LOSSES c; TIES_COUNT_AS_HALF_WIN c;
    TIES_COUNT_AS_THIRD_WIN c; TIES_COUNT_AS_WINS c ].

(** A computation that does not end in [ZeroDivisionError]. *)
Definition no_zero_division {A} (r : result A) : Prop :=
  r <> Raise ZeroDivisionError.

(** Keys used in the examples. *)
Definition example_keys : RESULT_RATE_STRATEGY :=
  {| IGNORE_TIES := lit "ignore_ties";
     TIES_COUNT_AS_LOSSES := lit "ties_count_as_losses";
     TIES_COUNT_AS_HALF_WIN := lit "ties_count_as_half_win";
     TIES_COUNT_AS_THIRD_WIN := lit "ties_count_as_third_win";
     TIES_COUNT_AS_WINS := lit "ties_count_as_wins" |}.

(** *** The selector *)

(** The keys a loop over a dictionary built from [l] meets: each key once,
    at the place of its first insertion. *)
Fixpoint dict_keys (seen l : list pystr) : list pystr :=
  match l with
  | [] => []
  | k :: l' =>
      if bool_decide (k ∈ seen) then dict_keys seen l'
      else k :: dict_keys (k :: seen) l'
  end.

(** An option of the dropdown: the dictionary with the two keys
    [c.DASH.VALUE] and [c.DASH.LABEL]. *)
Record DropdownOption := {
  option_value : pystr;
  option_label : option Markdown
}.

(** The [dcc.Dropdown] component, by its arguments. *)
Record Dropdown := {
  dropdown_id : pystr;
  dropdown_options : list DropdownOption;
  dropdown_value : pystr;
  clearable : bool
}.

(** [value] is [None] when the caller leaves the argument out. *)
Definition create_result_rate_selector (c : RESULT_RATE_STRATEGY)
    (id : pystr) (value : option pystr) : Dropdown :=
  let options :=
    map (fun key => {| option_value := key;
                       option_label := create_result_rate_label c key false |})
        (dict_keys [] (map fst (_RESULT_RATES c))) in
  {| dropdown_id := id;
     dropdown_options := options;
     dropdown_value := default (IGNORE_TIES c) value;
     clearable := false |}.

End ResultRate.


(** ** [scripts/generate_lab_events.py] *)

Module LabEvents.

(** *** Text *)

Definition EN_DASH : N := 8211.
Definition COMMA : N := 44.
Definition SLASH : N := 47.

(** [str.isspace], which is also the regular expression class [\s]. *)
Definition isspace (c : N) : bool :=
  ((9 <=? c) && (c <=? 13) || (28 <=? c) && (c <=? 32)
   || (c =? 133) || (c =? 160) || (c =? 5760)
   || (8192 <=? c) && (c <=? 8202)
   || (c =? 8232) || (c =? 8233) || (c =? 8239) || (c =? 8287)
   || (c =? 12288))%N.

(** The decimal value of a code point, the class [\d] and the digits [int]
    reads. [unicode_decimal] is the interpreter's Unicode table for the
    code points outside ASCII. *)
Definition decimal_value (unicode_decimal : N -> option N) (c : N)
  : option Z :=
  if ((48 <=? c) && (c <=? 57))%N then Some (Z.of_N (c - 48))
  else if (c <? 128)%N then None
  else match unicode_decimal c with
       | Some d => if (d <? 10)%N then Some (Z.of_N d) else None
       | None => None
       end.

Definition isdecimal (unicode_decimal : N -> option N) (c : N) : bool :=
  match decimal_value unicode_decimal c with
  | Some _ => true
  | None => false
  end.

Definition ascii_lower (c : N) : N :=
  if ((65 <=? c) && (c <=? 90))%N then (c + 32)%N else c.

Definition in_range (lo hi : string) (c : N) : bool :=
  match lit lo, lit hi with
  | [l], [h] => ((l <=? c) && (c <=? h))%N
  | _, _ => false
  end.

(** [s.find(c)] for a one-character [c]. *)
Fixpoint find_from (c : N) (s : pystr) (i : Z) : Z :=
  match s with
  | [] => -1
  | x :: s' => if (x =? c)%N then i else find_from c s' (i + 1)
  end.

Definition find (c : N) (s : pystr) : Z := find_from c s 0.

(** The position a slice bound denotes in a string of length [len]. *)
Definition slice_bound (len : nat) (i : Z) : nat :=
  Z.to_nat (if i <? 0 then Z.max 0 (i + Z.of_nat len)
            else Z.min i (Z.of_nat len)).

(** [s[:i]] and [s[i:]]. *)
Definition slice_to (s : pystr) (i : Z) : pystr :=
  take (slice_bound (length s) i) s.

Definition slice_from (s : pystr) (i : Z) : pystr :=
  drop (slice_bound (length s) i) s.

(** [s.split(sep)] for a one-character separator. *)
Fixpoint split (sep : N) (s : pystr) : list pystr :=
  match s with
  | [] => [[]]
  | c :: s' =>
      if (c =? sep)%N then [] :: split sep s'
      else match split sep s' with
           | h :: t => (c :: h) :: t
           | [] => [[c]]
           end
  end.

Fixpoint lstrip (s : pystr) : pystr :=
  match s with
  | c :: s' => if isspace c then lstrip s' else s
  | [] => []
  end.

(** [s.strip()] *)
Definition strip (s : pystr) : pystr := rev (lstrip (rev (lstrip s))).

(** The maximal runs of non-whitespace characters of [s]; [cur] is the
    run being read, last character first. *)
Fixpoint words (cur s : pystr) : list pystr :=
  match s with
  | [] => match cur with [] => [] | _ => [rev cur] end
  | c :: s' =>
      if isspace c
      then match cur with [] => words [] s' | _ => rev cur :: words [] s' end
      else words (c :: cur) s'
  end.

Definition endswith (s : pystr) (c : N) : bool :=
  match last s with
  | Some x => (x =? c)%N
  | None => false
  end.

(** Is [p] a prefix of [s], and what follows it. *)
Fixpoint strip_prefix (eqc : N -> N -> bool) (p s : pystr) : option pystr :=
  match p, s with
  | [], _ => Some s
  | x :: p', y :: s' => if eqc x y then strip_prefix eqc p' s' else None
  | _ :: _, [] => None
  end.

(** [a < b] on strings: by code points, the shorter first. *)
Fixpoint str_compare (a b : pystr) : comparison :=
  match a, b with
  | [], [] => Eq
  | [], _ :: _ => Lt
  | _ :: _, [] => Gt
  | x :: a', y :: b' =>
      match (x ?= y)%N with
      | Eq => str_compare a' b'
      | c => c
      end
  end.

(** *** Regular expressions with backtracking

    Each piece takes the rest of the pattern as a continuation and tries
    its ways of matching in the order the engine does. *)

(** The first alternative that succeeds. *)
Fixpoint first_of {A B} (f : A -> option B) (l : list A) : option B :=
  match l with
  | [] => None
  | a :: l' => match f a with Some b => Some b | None => first_of f l' end
  end.

(** [\s+]: greedy, then shorter. *)
Fixpoint ws_plus {A} (k : pystr -> option A) (s : pystr) : option A :=
  match s with
  | c :: s' =>
      if isspace c
      then match ws_plus k s' with Some r => Some r | None => k s' end
      else None
  | [] => None
  end.

(** [(\d+)]: greedy, then shorter; the continuation gets the digits. *)
Fixpoint digits_plus {A} (ud : N -> option N)
    (k : pystr -> pystr -> option A) (seen s : pystr) : option A :=
  match s with
  | c :: s' =>
      if isdecimal ud c
      then match digits_plus ud k (seen ++ [c]) s' with
           | Some r => Some r
           | None => k (seen ++ [c]) s'
           end
      else None
  | [] => None
  end.

(** A sequence of one-character classes, the continuation gets the text
    they matched. *)
Fixpoint classes {A} (cs : list (N -> bool))
    (k : pystr -> pystr -> option A) (seen s : pystr) : option A :=
  match cs with
  | [] => k seen s
  | p :: cs' =>
      match s with
      | c :: s' => if p c then classes cs' k (seen ++ [c]) s' else None
      | [] => None
      end
  end.

(** [int(s)] on a string of decimal digits, possibly after spaces. The
    interpreter refuses more than 4300 digits. *)
Definition int_max_str_digits : nat := 4300.

Definition int_of (ud : N -> option N) (s : pystr) : result Z :=
  let digits := lstrip s in
  if Nat.eqb (length digits) 0
  then Raise (ValueError (lit "invalid literal for int() with base 10"))
  else if Nat.ltb int_max_str_digits (length digits)
  then Raise (ValueError
                (lit "Exceeds the limit (4300 digits) for integer string conversion"))
  else
    foldl (fun acc c =>
             n ← acc;
             match decimal_value ud c with
             | Some d => Ok (10 * n + d)
             | None =>
                 Raise (ValueError
                          (lit "invalid literal for int() with base 10"))
             end)
          (Ok 0) digits.

(** *** [datetime.strptime(s, '%B %d, %Y')] and [strftime('%Y-%m-%d')] *)

Record datetime := {
  year : Z;
  month : Z;
  day : Z
}.

(** The month names of the C locale, in lower case; index 0 is empty. *)
Definition f_month : list pystr :=
  map lit [ ""; "january"; "february"; "march"; "april"; "may"; "june";
            "july"; "august"; "september"; "october"; "november";
            "december" ]%string.

(** The alternatives of [%B] in the order of the compiled pattern: the
    names sorted by decreasing length. *)
Definition B_alternatives : list pystr :=
  map lit [ "september"; "february"; "november"; "december"; "january";
            "october"; "august"; "march"; "april"; "june"; "july";
            "may" ]%string.

(** The alternatives of [%d]: [3[0-1]|[1-2]\d|0[1-9]|[1-9]| [1-9]]. *)
Definition d_alternatives (ud : N -> option N) : list (list (N -> bool)) :=
  [ [ in_range "3" "3"; in_range "0" "1" ];
    [ in_range "1" "2"; isdecimal ud ];
    [ in_range "0" "0"; in_range "1" "9" ];
    [ in_range "1" "9" ];
    [ in_range " " " "; in_range "1" "9" ] ].

Record groups := {
  group_B : pystr;
  group_d : pystr;
  group_Y : pystr
}.

(** A pattern letter matches a character whose lower case it is. The
    engine also lets a few code points outside ASCII stand for [i], [k]
    and [s]; their [lower()] is not the letter, the month is then not in
    [f_month], and [strptime] raises [ValueError] as it does here. *)
Definition ignore_case (x y : N) : bool := (x =? ascii_lower y)%N.

(** [format_regex.match(s)] for the pattern of ['%B %d, %Y'],
    [(?P<B>...)\s+(?P<d>...),\s+(?P<Y>\d\d\d\d)] with [IGNORECASE]: the
    groups and the text left after the match. *)
Definition format_regex_match (ud : N -> option N) (s : pystr)
  : option (groups * pystr) :=
  first_of (fun name =>
    match strip_prefix ignore_case name s with
    | None => None
    | Some rest =>
        ws_plus (fun rest =>
          first_of (fun alt =>
            classes alt (fun d_text rest =>
              classes [ N.eqb COMMA ] (fun _ rest =>
                ws_plus (fun rest =>
                  classes [ isdecimal ud; isdecimal ud;
                            isdecimal ud; isdecimal ud ]
                    (fun Y_text rest =>
                       Some ({| group_B := take (length name) s;
                                group_d := d_text;
                                group_Y := Y_text |}, rest))
                    [] rest) rest)
                [] rest)
              [] rest)
            (d_alternatives ud)) rest
    end) B_alternatives.

Definition is_leap (y : Z) : bool :=
  (y mod 4 =? 0) && (negb (y mod 100 =? 0) || (y mod 400 =? 0)).

Definition days_in_month (y m : Z) : Z :=
  if m =? 2 then (if is_leap y then 29 else 28)
  else if (m =? 4) || (m =? 6) || (m =? 9) || (m =? 11) then 30
  else 31.

(** [l.index(x)] *)
Fixpoint index_from (x : pystr) (l : list pystr) (i : Z) : result Z :=
  match l with
  | [] => Raise (ValueError (x ++ lit " is not in list"))
  | y :: l' => if bool_decide (x = y) then Ok i else index_from x l' (i + 1)
  end.

(** The message of a mismatch quotes the data with [repr]; the handler of
    the caller drops it, and it is not rendered here. *)
Definition strptime (ud : N -> option N) (s : pystr) : result datetime :=
  match format_regex_match ud s with
  | None => Raise (ValueError (lit "time data does not match format"))
  | Some (found, rest) =>
      match rest with
      | _ :: _ =>
          Raise (ValueError (lit "unconverted data remains: " ++ rest))
      | [] =>
          m ← index_from (map ascii_lower (group_B found)) f_month 0;
          dd ← int_of ud (group_d found);
          y ← int_of ud (group_Y found);
          if (1 <=? y) && (y <=? 9999) && (1 <=? m) && (m <=? 12)
             && (1 <=? dd) && (dd <=? days_in_month y m)
          then Ok {| year := y; month := m; day := dd |}
          else Raise (ValueError (lit "day is out of range for month"))
      end
  end.

(** [n] as [width] decimal digits. *)
Fixpoint zero_padded (width : nat) (n : Z) : pystr :=
  match width with
  | O => []
  | S w => zero_padded w (n / 10) ++ [ (48 + Z.to_N (n mod 10))%N ]
  end.

(** [date_obj.strftime('%Y-%m-%d')]. The year is written on four digits;
    below the year 1000 the C library of some platforms drops the leading
    zeros. *)
Definition strftime (date_obj : datetime) : pystr :=
  zero_padded 4 (year date_obj) ++ lit "-"
  ++ zero_padded 2 (month date_obj) ++ lit "-"
  ++ zero_padded 2 (day date_obj).

(** *** The parsed page *)

#[local] Set Warnings "-register-all".

(** What [BeautifulSoup(page_html, 'html.parser')] builds: text and tags,
    a tag with its attributes and its children in document order. *)
Inductive node :=
  | NavigableString (text : pystr)
  | Tag (name : pystr) (attrs : list (pystr * pystr)) (contents : list node).

Definition named (nm : string) (n : node) : bool :=
  match n with
  | Tag name _ _ => bool_decide (name = lit nm)
  | NavigableString _ => false
  end.

Fixpoint get_attr (key : pystr) (attrs : list (pystr * pystr))
  : option pystr :=
  match attrs with
  | [] => None
  | (k, v) :: attrs' =>
      if bool_decide (k = key) then Some v else get_attr key attrs'
  end.

(** The selector [ul.grid]: a [ul] whose class attribute lists [grid]. *)
Definition is_ul_grid (n : node) : bool :=
  match n with
  | Tag name attrs _ =>
      bool_decide (name = lit "ul")
      && match get_attr (lit "class") attrs with
         | Some v => bool_decide (lit "grid" ∈ words [] v)
         | None => false
         end
  | NavigableString _ => false
  end.

(** The first match of the selector in [n] and below, in document order. *)
Fixpoint select_in (n : node) : option node :=
  match n with
  | NavigableString _ => None
  | Tag _ _ contents =>
      if is_ul_grid n then Some n else first_of select_in contents
  end.

(** [soup.select_one('ul.grid')] *)
Definition select_one (soup : list node) : option node :=
  first_of select_in soup.

(** [tag.find_all(nm, recursive=False)] *)
Definition find_all (nm : string) (tag : node) : list node :=
  match tag with
  | Tag _ _ contents => filter (fun n => named nm n = true) contents
  | NavigableString _ => []
  end.

(** [tag.find(nm, recursive=False)] *)
Definition find_child (nm : string) (tag : node) : option node :=
  head (find_all nm tag).

(** The strings below a node, in document order. *)
Fixpoint strings (n : node) : list pystr :=
  match n with
  | NavigableString text => [text]
  | Tag _ _ contents => flat_map strings contents
  end.

(** [tag.get_text(strip=True)]: the stripped strings that are not empty,
    joined. *)
Definition get_text (tag : node) : pystr :=
  concat (filter (fun t => t <> []) (map strip (strings tag))).

(** *** The world of a run *)

(** What a run meets outside the script: the HTML parser, the
    interpreter's table of decimal digits outside ASCII, and the remote
    server, which answers a URL with the body of a successful response or
    fails. *)
Record environment := {
  BeautifulSoup : pystr -> list node;
  unicode_decimal : N -> option N;
  session_get : pystr -> option pystr
}.

Definition fetch_html (env : environment) (url : pystr) : result pystr :=
  match session_get env url with
  | Some text => Ok text
  | None => Raise (ClientError url)
  end.

(** [re.search(r'(\d+)\s+players', html)]: the digits of the first match,
    from the leftmost position that has one. *)
Fixpoint search_players (ud : N -> option N) (html : pystr)
  : option pystr :=
  let here :=
    digits_plus ud (fun digits rest =>
      ws_plus (fun rest =>
        match strip_prefix N.eqb (lit "players") rest with
        | Some _ => Some digits
        | None => None
        end) rest) [] html in
  match here with
  | Some digits => Some digits
  | None =>
      match html with
      | [] => None
      | _ :: html' => search_players ud html'
      end
  end.

Definition extract_player_count (env : environment) (html : pystr)
  : result (option Z) :=
  match search_players (unicode_decimal env) html with
  | Some digits => n ← int_of (unicode_decimal env) digits; Ok (Some n)
  | None => Ok None
  end.

(** *** The listing parser *)

(** Lines 94 to 96: the text given to [strptime]. *)
Definition date_str (text2 : pystr) : pystr :=
  let dash_index := find EN_DASH text2 in
  let comma_index := find COMMA text2 in
  slice_to text2 dash_index ++ slice_from text2 comma_index.

(** Lines 93 to 101: the date of an item from its date text. *)
Definition parse_date (env : environment) (text2 : pystr)
  : result (option pystr) :=
  let tried :=
    date_obj ← strptime (unicode_decimal env) (date_str text2);
    Ok (strftime date_obj) in
  match tried with
  | Ok formatted_date => Ok (Some formatted_date)
  | Raise (ValueError _) | Raise AttributeError => Ok None
  | Raise e => Raise e
  end.

(** Lines 78 to 87: the two texts inside the anchor. *)
Definition inner_texts (a : node) : option pystr * option pystr :=
  match find_all "div" a with
  | first_div :: _ =>
      match find_all "div" first_div with
      | div1 :: div2 :: _ => (Some (get_text div1), Some (get_text div2))
      | _ => (None, None)
      end
  | [] => (None, None)
  end.

Definition href_of (a : node) : option pystr :=
  match a with
  | Tag _ attrs _ => get_attr (lit "href") attrs
  | NavigableString _ => None
  end.

Definition listing : Type :=
  list pystr * list pystr * list (option pystr).

(** The body of the loop over the items. *)
Definition visit_li (env : environment) (acc : listing) (li : node)
  : result listing :=
  let '(ids, names, dates) := acc in
  match find_child "a" li with
  | None => Ok acc
  | Some a =>
      match href_of a with
      | None => Ok acc
      | Some href =>
          let href_split := split SLASH href in
          if Nat.ltb (length href_split) 2 then Ok acc
          else
            let tournament_id := nth 1 href_split [] in
            let ids := ids ++ [tournament_id] in
            let '(text1, text2) := inner_texts a in
            let names :=
              names ++ [ match text1 with
                         | Some ((_ :: _) as t) => t
                         | _ => lit "Unknown Event"
                         end ] in
            match text2 with
            | Some ((_ :: _) as t) =>
                date ← parse_date env t;
                Ok (ids, names, dates ++ [date])
            | _ => Ok (ids, names, dates ++ [None])
            end
      end
  end.

Fixpoint for_each_li (env : environment) (lis : list node) (acc : listing)
  : result listing :=
  match lis with
  | [] => Ok acc
  | li :: lis' => acc' ← visit_li env acc li; for_each_li env lis' acc'
  end.

Definition extract_labs_list_items (env : environment) (page_html : pystr)
  : result listing :=
  let soup := BeautifulSoup env page_html in
  match select_one soup with
  | None => Raise (ValueError (lit "No <ul class='grid'> found"))
  | Some ul => for_each_li env (find_all "li" ul) ([], [], [])
  end.

(** *** The snapshot *)

(** An event record. A field a stored record may lack, or hold as [null],
    is optional. *)
Record event := {
  ev_id : option pystr;
  ev_name : pystr;
  ev_date : option pystr;
  ev_game : pystr;
  ev_division : option pystr;
  ev_player_count : option Z;
  ev_format : option pystr
}.

(** A file: a JSON array of event records, or something [json.load]
    rejects or that cannot be read. *)
Inductive file :=
  | JsonArray (events : list event)
  | Unreadable.

(** The dictionary comprehension of [load_existing_events]: a later record
    replaces an earlier one with the same id. *)
Definition by_id (events : list event) : gmap pystr event :=
  foldl (fun m e => match ev_id e with
                    | Some k => <[ k := e ]> m
                    | None => m
                    end) ∅ events.

Definition load_existing_events (fs : gmap pystr file) (output_file : pystr)
  : gmap pystr event :=
  match fs !! output_file with
  | None => ∅
  | Some (JsonArray events) => by_id events
  | Some Unreadable => ∅
  end.

(** *** The orchestrator *)

Definition fetch_division_player_count (env : environment)
    (base_url tournament_id division : pystr) : option Z :=
  let url :=
    base_url ++ tournament_id ++ lit "/" ++ division ++ lit "/standings" in
  match (html ← fetch_html env url; extract_player_count env html) with
  | Ok count => count
  | Raise _ => None
  end.

Definition divisions : list pystr := [ lit "JR"; lit "SR"; lit "MA" ].

(** The variables the two loops update. *)
Record progress := {
  events : list event;
  fetch_count : nat;
  cached_count : nat
}.

(** Lines 217 to 233: the record of a pair the snapshot does not hold. *)
Definition new_event (env : environment)
    (base_url game : pystr) (format : option pystr)
    (item : pystr * pystr * option pystr) (division : pystr) : event :=
  let '(tournament_id, name, date) := item in
  let event_id := tournament_id ++ lit "_" ++ division in
  let player_count :=
    fetch_division_player_count env base_url tournament_id division in
  {| ev_id := Some event_id;
     ev_name := name ++ lit " (" ++ division ++ lit ")";
     ev_date := date;
     ev_game := game;
     ev_division := Some division;
     ev_player_count := player_count;
     ev_format := match format with
                  | Some ((_ :: _) as f) => Some f
                  | _ => None
                  end |}.

(** The body of the inner loop. *)
Definition visit_division (env : environment)
    (existing_events : gmap pystr event)
    (base_url game : pystr) (format : option pystr)
    (item : pystr * pystr * option pystr)
    (st : progress) (division : pystr) : progress :=
  let event_id := item.1.1 ++ lit "_" ++ division in
  match existing_events !! event_id with
  | Some cached =>
      {| events := events st ++ [cached];
         fetch_count := fetch_count st;
         cached_count := S (cached_count st) |}
  | None =>
      let event := new_event env base_url game format item division in
      {| events := events st ++ [event];
         fetch_count := S (fetch_count st);
         cached_count := cached_count st |}
  end.

Definition visit_tournament (env : environment)
    (existing_events : gmap pystr event)
    (base_url game : pystr) (format : option pystr)
    (st : progress) (item : pystr * pystr * option pystr) : progress :=
  foldl (visit_division env existing_events base_url game format item)
        st divisions.

(** [zip(ids, names, dates)] *)
Fixpoint zip3 (ids names : list pystr) (dates : list (option pystr))
  : list (pystr * pystr * option pystr) :=
  match ids, names, dates with
  | i :: ids', n :: names', d :: dates' => (i, n, d) :: zip3 ids' names' dates'
  | _, _, _ => []
  end.

(** The sort key [(x.get('date') or '', x.get('division') or '')]. *)
Definition sort_key (x : event) : pystr * pystr :=
  (default [] (ev_date x), default [] (ev_division x)).

(** [a < b] on the keys: tuples compare by their first differing item. *)
Definition key_lt (a b : pystr * pystr) : bool :=
  match str_compare a.1 b.1 with
  | Lt => true
  | Gt => false
  | Eq => match str_compare a.2 b.2 with Lt => true | _ => false end
  end.

(** A stable sort by [<] on the key: [x] goes before the first item that
    is not smaller. *)
Fixpoint insert_sorted (x : event) (l : list event) : list event :=
  match l with
  | [] => [x]
  | y :: l' =>
      if key_lt (sort_key y) (sort_key x) then y :: insert_sorted x l'
      else x :: l
  end.

Fixpoint stable_sort (l : list event) : list event :=
  match l with
  | [] => []
  | x :: l' => insert_sorted x (stable_sort l')
  end.

(** [events.sort(key=..., reverse=True)]: the list is reversed, sorted
    and reversed again, so that equal keys keep their order. *)
Definition sort_reverse (l : list event) : list event :=
  rev (stable_sort (rev l)).

(** Lines 176 and 177: the base URL ends with a slash. *)
Definition with_trailing_slash (base_url : pystr) : pystr :=
  if endswith base_url SLASH then base_url else base_url ++ lit "/".

(** What a run leaves: the list it returns, the counts of its summary and
    the file system after the write. *)
Record outcome := {
  returned : list event;
  summary_cached : nat;
  summary_fetched : nat;
  files : gmap pystr file
}.

Definition scrape_labs_events (env : environment) (fs : gmap pystr file)
    (base_url output_file game : pystr) (format : option pystr)
  : result outcome :=
  let base_url := with_trailing_slash base_url in
  let existing_events := load_existing_events fs output_file in
  html ← fetch_html env base_url;
  '(ids, names, dates) ← extract_labs_list_items env html;
  let st :=
    foldl (visit_tournament env existing_events base_url game format)
          {| events := []; fetch_count := 0; cached_count := 0 |}
          (zip3 ids names dates) in
  let sorted := sort_reverse (events st) in
  Ok {| returned := sorted;
        summary_cached := cached_count st;
        summary_fetched := fetch_count st;
        files := <[ output_file := JsonArray sorted ]> fs |}.

(** *** Notions the properties are stated with *)

(** An item the loop of the parser keeps: its first anchor has an [href]
    with at least two segments. *)
Definition qualifies (li : node) : bool :=
  match find_child "a" li with
  | Some a =>
      match href_of a with
      | Some href => negb (Nat.ltb (length (split SLASH href)) 2)
      | None => false
      end
  | None => false
  end.

(** The date text of an item, when its anchor has the two inner texts. *)
Definition date_text (li : node) : option pystr :=
  match find_child "a" li with
  | Some a => (inner_texts a).2
  | None => None
  end.

(** The composite id of a tournament and a division. *)
Definition composite_id (tournament_id division : pystr) : pystr :=
  tournament_id ++ lit "_" ++ division.

(** The tournament id of an item. *)
Definition tournament_of (item : pystr * pystr * option pystr) : pystr :=
  item.1.1.

(** The pairs of an item and a division, in the order of the two loops. *)
Definition pairs (its : list (pystr * pystr * option pystr))
  : list ((pystr * pystr * option pystr) * pystr) :=
  flat_map (fun item => map (fun division => (item, division)) divisions)
           its.

Definition pair_id (p : (pystr * pystr * option pystr) * pystr) : pystr :=
  composite_id (tournament_of p.1) p.2.

(** The record the inner loop appends for a pair: the stored one, or a
    new one. *)
Definition record_for (env : environment)
    (existing_events : gmap pystr event)
    (base_url game : pystr) (format : option pystr)
    (p : (pystr * pystr * option pystr) * pystr) : event :=
  match existing_events !! pair_id p with
  | Some cached => cached
  | None => new_event env base_url game format p.1 p.2
  end.

(** Does the snapshot hold the record of a pair, and how many pairs of a
    list it holds or lacks. *)
Definition hit (existing_events : gmap pystr event)
    (p : (pystr * pystr * option pystr) * pystr) : bool :=
  match existing_events !! pair_id p with
  | Some _ => true
  | None => false
  end.

Definition hits (existing_events : gmap pystr event)
    (l : list ((pystr * pystr * option pystr) * pystr)) : nat :=
  length (filter (fun p => hit existing_events p = true) l).

Definition misses (existing_events : gmap pystr event)
    (l : list ((pystr * pystr * option pystr) * pystr)) : nat :=
  length (filter (fun p => hit existing_events p = false) l).

(** The comparison of two sort keys. *)
Definition key_compare (a b : pystr * pystr) : comparison :=
  match str_compare a.1 b.1 with
  | Eq => str_compare a.2 b.2
  | c => c
  end.

(** No earlier record has a smaller key than a later one. *)
Definition descending (l : list event) : Prop :=
  StronglySorted
    (fun a b => key_lt (sort_key a) (sort_key b) = false) l.

(** A text with exactly one comma, and something after it. *)
Definition one_comma (s : pystr) : Prop :=
  exists a b, s = a ++ COMMA :: b /\ (COMMA ∉ a) /\ (COMMA ∉ b) /\ b <> [].

(** A computation that returns, or raises [ValueError]. *)
Definition only_value_error {A} (r : result A) : Prop :=
  match r with
  | Ok _ | Raise (ValueError _) => True
  | Raise _ => False
  end.

(** A text with the en-dash between [before] and [after]. *)
Definition with_dash (before after : string) : pystr :=
  lit before ++ [EN_DASH] ++ lit after.

(** *** Pages and servers of the examples *)

Definition example_item (href name date : pystr) : node :=
  Tag (lit "li") []
    [ Tag (lit "a") [ (lit "href", href) ]
        [ Tag (lit "div") []
            [ Tag (lit "div") [] [ NavigableString name ];
              Tag (lit "div") [] [ NavigableString date ] ] ] ].

Definition example_page (lis : list node) : list node :=
  [ Tag (lit "html") []
      [ Tag (lit "body") []
          [ Tag (lit "ul") [ (lit "class", lit "grid gap-4") ] lis ] ] ].

(** A server whose every page reads [128 players]. *)
Definition example_env (soup : list node) : environment :=
  {| BeautifulSoup := fun _ => soup;
     unicode_decimal := fun _ => None;
     session_get := fun _ => Some (lit "128 players") |}.

(** A listing with two tournaments. *)
Definition two_tournaments : list node :=
  example_page
    [ example_item (lit "/0042/standings") (lit "Spring Cup")
        (with_dash "May 3" "4, 2025");
      example_item (lit "/0043/standings") (lit "Autumn Cup")
        (with_dash "October 11" "12, 2025") ].

(** A listing that shows the tournament 0042 twice, under two names. *)
Definition listed_twice : list node :=
  example_page
    [ example_item (lit "/0042/standings") (lit "Spring Cup")
        (with_dash "May 3" "4, 2025");
      example_item (lit "/0042/standings") (lit "Spring Cup, day 2")
        (with_dash "May 4" "4, 2025") ].

(** A page without the list, and a page whose list has no item to keep. *)
Definition no_container : list node :=
  [ Tag (lit "html") [] [ Tag (lit "body") [] [ Tag (lit "ul") [] [] ] ] ].

Definition no_items : list node :=
  example_page
    [ Tag (lit "li") [] [ NavigableString (lit "Coming soon") ];
      Tag (lit "li") [] [ Tag (lit "a") [] [] ];
      Tag (lit "li") [] [ Tag (lit "a") [ (lit "href", lit "about") ] [] ] ].

Definition example_run (soup : list node) (fs : gmap pystr file)
  : result outcome :=
  scrape_labs_events (example_env soup) fs
    (lit "https://labs.example") (lit "labs_events.json") (lit "PTCG") None.

(** *** Notions for the further properties *)

(** The tournament id, the name and the date the loop of the parser
    records for an item it keeps. *)
Definition kept_id (li : node) : pystr :=
  match find_child "a" li with
  | Some a =>
      match href_of a with
      | Some href => nth 1 (split SLASH href) []
      | None => []
      end
  | None => []
  end.

Definition kept_name (li : node) : pystr :=
  match find_child "a" li with
  | Some a =>
      match (inner_texts a).1 with
      | Some ((_ :: _) as t) => t
      | _ => lit "Unknown Event"
      end
  | None => lit "Unknown Event"
  end.

Definition kept_date (env : environment) (li : node) : option pystr :=
  match date_text li with
  | Some ((_ :: _) as t) =>
      match parse_date env t with
      | Ok date => date
      | Raise _ => None
      end
  | _ => None
  end.

(** A text that neither starts nor ends with whitespace. *)
Definition trimmed (s : pystr) : Prop :=
  match s with
  | [] => True
  | c :: _ => isspace c = false
  end
  /\ match last s with
     | Some c => isspace c = false
     | None => True
     end.



(** The records of a list that have a given sort key, in their order. *)
Definition with_key (k : pystr * pystr) (l : list event) : list event :=
  filter (fun e => sort_key e = k) l.


End LabEvents.

(** * Properties of the result-rate helpers *)

Module ResultRateFacts.

Import PrimFloat.
Import PyNum ResultRate.

(** The table as the five insertions the comprehension performs. *)
Ltac unfold_details :=
  unfold RESULT_RATE_STRATEGY_DETAILS, _RESULT_RATES; cbn [foldl fst snd].

Ltac in_list :=
  repeat first [ apply list_elem_of_here | apply list_elem_of_further ].

Lemma details_unknown c k :
  k ∉ strategy_keys c -> RESULT_RATE_STRATEGY_DETAILS c !! k = None.
Proof.
  unfold strategy_keys. rewrite !not_elem_of_cons.
  intros (? & ? & ? & ? & ? & _). unfold_details.
  rewrite !lookup_insert_ne by congruence. apply lookup_empty.
Qed.

Lemma details_known c k :
  k ∈ strategy_keys c ->
  exists d, RESULT_RATE_STRATEGY_DETAILS c !! k = Some d
            /\ d ∈ (_RESULT_RATES c).*2.
Proof.
  unfold strategy_keys. rewrite !elem_of_cons, elem_of_nil.
  intros Hk. unfold_details.
  repeat (rewrite lookup_insert; case_decide;
          [ eexists; split; [ reflexivity | cbn; in_list ] | ]).
  exfalso. intuition congruence.
Qed.

Lemma details_at c i k d :
  NoDup (strategy_keys c) ->
  _RESULT_RATES c !! i = Some (k, d) ->
  RESULT_RATE_STRATEGY_DETAILS c !! k = Some d.
Proof.
  unfold strategy_keys. rewrite !NoDup_cons, !not_elem_of_cons.
  intros Hnd Hi. revert Hi. unfold_details. intros Hi.
  do 5 (destruct i as [|i];
        [ injection Hi as <- <-;
          repeat (rewrite lookup_insert; case_decide;
                  [ first [ reflexivity | exfalso; intuition congruence ] | ]);
          exfalso; congruence | ]).
  discriminate.
Qed.

(** *** No operation of a formula divides by zero *)

Lemma bind_no_zero_division {A B} (r : result A) (k : A -> result B) :
  no_zero_division r -> (forall a, no_zero_division (k a)) ->
  no_zero_division (r ≫= k).
Proof.
  unfold no_zero_division. destruct r as [a|e]; cbn; intros Hr Hk.
  - apply Hk.
  - congruence.
Qed.

Lemma float_of_int_no_zero_division z : no_zero_division (float_of_int z).
Proof.
  unfold no_zero_division, float_of_int.
  destruct (PrimFloat.is_infinity _); discriminate.
Qed.

Lemma to_float_no_zero_division a : no_zero_division (to_float a).
Proof.
  destruct a; cbn; [ apply float_of_int_no_zero_division | discriminate ].
Qed.

Lemma add_no_zero_division a b : no_zero_division (add a b).
Proof.
  destruct a, b; cbn [add]; try discriminate;
    repeat (apply bind_no_zero_division;
            [ first [ apply float_of_int_no_zero_division
                    | apply to_float_no_zero_division
                    | discriminate ] | intros ? ]);
    discriminate.
Qed.

Lemma mul_no_zero_division a b : no_zero_division (mul a b).
Proof.
  destruct a, b; cbn [mul]; try discriminate;
    repeat (apply bind_no_zero_division;
            [ first [ apply float_of_int_no_zero_division
                    | apply to_float_no_zero_division
                    | discriminate ] | intros ? ]);
    discriminate.
Qed.

Lemma truediv_no_zero_division a b :
  is_zero b = false -> no_zero_division (truediv a b).
Proof.
  destruct a, b; cbn [truediv is_zero]; intros Hb.
  - rewrite Hb. destruct (PrimFloat.is_infinity _); discriminate.
  - apply bind_no_zero_division;
      [ apply to_float_no_zero_division | intros ? ].
    rewrite Hb. discriminate.
  - apply bind_no_zero_division; [ discriminate | intros ? ].
    apply bind_no_zero_division;
      [ apply float_of_int_no_zero_division | intros ? ].
    rewrite Hb. discriminate.
  - apply bind_no_zero_division; [ discriminate | intros ? ].
    rewrite Hb. discriminate.
Qed.

Lemma formula_no_zero_division c d w l t :
  d ∈ (_RESULT_RATES c).*2 -> no_zero_division (CALCULATE d w l t).
Proof.
  cbn. rewrite !elem_of_cons, elem_of_nil.
  intros [-> | [-> | [-> | [-> | [-> | []]]]]]; cbn [CALCULATE];
    repeat (apply bind_no_zero_division;
            [ first [ apply add_no_zero_division
                    | apply truediv_no_zero_division; reflexivity ]
            | intros ? ]);
    discriminate.
Qed.

Lemma calculate_known c k d w l t p :
  RESULT_RATE_STRATEGY_DETAILS c !! k = Some d ->
  calculate_result_rate c k w l t p =
  match CALCULATE d w l t with
  | Raise (KeyError _) =>
      Raise (ValueError (lit "Unknown result rate strategy: " ++ k))
  | Raise e => Raise e
  | Ok (numerator, denominator) =>
      rate ← (if is_zero denominator then Ok (PyInt 0)
              else truediv numerator denominator);
      if p then (x ← mul rate (PyInt 100); Ok (round1 x)) else Ok rate
  end.
Proof. unfold calculate_result_rate. intros ->. reflexivity. Qed.

Lemma calculate_unknown c k w l t p :
  k ∉ strategy_keys c ->
  calculate_result_rate c k w l t p =
  Raise (ValueError (lit "Unknown result rate strategy: " ++ k)).
Proof.
  intros Hk. unfold calculate_result_rate.
  rewrite (details_unknown c k Hk). reflexivity.
Qed.

Lemma example_keys_distinct : NoDup (strategy_keys example_keys).
Proof. apply (bool_decide_unpack _). vm_compute. reflexivity. Qed.

(** C5. With wins 3, losses 1 and ties 2 the five strategies return 3/4,
    3/6, 4/6, (3 + 2/3)/6 and 5/6, each evaluated in Python's arithmetic;
    with [percentage=True] the value returned is that rate multiplied by
    100 and rounded to one decimal: 75.0, 50.0, 66.7, 61.1 and 83.3. The
    keys of the five strategies are taken pairwise distinct. *)
Theorem result_rate_formulas (c : RESULT_RATE_STRATEGY) :
  NoDup (strategy_keys c) ->
  let rate k p :=
    calculate_result_rate c k (PyInt 3) (PyInt 1) (PyInt 2) p in
  (rate (IGNORE_TIES c) false = truediv (PyInt 3) (PyInt 4)
   /\ rate (IGNORE_TIES c) false = Ok (PyFloat 0.75%float)
   /\ rate (TIES_COUNT_AS_LOSSES c) false = truediv (PyInt 3) (PyInt 6)
   /\ rate (TIES_COUNT_AS_LOSSES c) false = Ok (PyFloat 0.5%float)
   /\ rate (TIES_COUNT_AS_HALF_WIN c) false = truediv (PyInt 4) (PyInt 6)
   /\ rate (TIES_COUNT_AS_THIRD_WIN c) false =
        (third ← truediv (PyInt 2) (PyInt 3);
         numerator ← add (PyInt 3) third;
         truediv numerator (PyInt 6))
   /\ rate (TIES_COUNT_AS_WINS c) false = truediv (PyInt 5) (PyInt 6))
  /\
  (rate (IGNORE_TIES c) true = Ok (PyFloat 75%float)
   /\ rate (TIES_COUNT_AS_LOSSES c) true = Ok (PyFloat 50%float)
   /\ rate (TIES_COUNT_AS_HALF_WIN c) true = Ok (PyFloat (decimal1 667))
   /\ rate (TIES_COUNT_AS_THIRD_WIN c) true = Ok (PyFloat (decimal1 611))
   /\ rate (TIES_COUNT_AS_WINS c) true = Ok (PyFloat (decimal1 833)))
  /\
  (forall k, k ∈ strategy_keys c ->
     rate k true =
       (r ← rate k false; x ← mul r (PyInt 100); Ok (round1 x))).
Proof.
  intros Hnd rate. subst rate. cbv beta.
  assert (Hat : forall i k d w l t p,
            _RESULT_RATES c !! i = Some (k, d) ->
            calculate_result_rate c k w l t p
            = match CALCULATE d w l t with
              | Raise (KeyError _) =>
                  Raise (ValueError
                           (lit "Unknown result rate strategy: " ++ k))
              | Raise e => Raise e
              | Ok (numerator, denominator) =>
                  rate ← (if is_zero denominator then Ok (PyInt 0)
                          else truediv numerator denominator);
                  if p then (x ← mul rate (PyInt 100); Ok (round1 x))
                  else Ok rate
              end).
  { intros i k d w l t p Hi.
    apply calculate_known, (details_at c i k d Hnd Hi). }
  split; [ | split ].
  - rewrite !(Hat 0%nat _ _ _ _ _ _ eq_refl), !(Hat 1%nat _ _ _ _ _ _ eq_refl),
      !(Hat 2%nat _ _ _ _ _ _ eq_refl), !(Hat 3%nat _ _ _ _ _ _ eq_refl),
      !(Hat 4%nat _ _ _ _ _ _ eq_refl).
    repeat split; vm_compute; reflexivity.
  - rewrite !(Hat 0%nat _ _ _ _ _ _ eq_refl), !(Hat 1%nat _ _ _ _ _ _ eq_refl),
      !(Hat 2%nat _ _ _ _ _ _ eq_refl), !(Hat 3%nat _ _ _ _ _ _ eq_refl),
      !(Hat 4%nat _ _ _ _ _ _ eq_refl).
    repeat split; vm_compute; reflexivity.
  - intros k Hk. destruct (details_known c k Hk) as (d & Hd & Hin).
    rewrite !(calculate_known c k d _ _ _ _ Hd).
    revert Hin. cbn. rewrite !elem_of_cons, elem_of_nil.
    intros [-> | [-> | [-> | [-> | [-> | []]]]]]; vm_compute; reflexivity.
Qed.

Lemma result_rate_formulas_witness :
  let rate k p :=
    calculate_result_rate example_keys k (PyInt 3) (PyInt 1) (PyInt 2) p in
  (rate (IGNORE_TIES example_keys) false = truediv (PyInt 3) (PyInt 4)
   /\ rate (IGNORE_TIES example_keys) false = Ok (PyFloat 0.75%float)
   /\ rate (TIES_COUNT_AS_LOSSES example_keys) false
      = truediv (PyInt 3) (PyInt 6)
   /\ rate (TIES_COUNT_AS_LOSSES example_keys) false = Ok (PyFloat 0.5%float)
   /\ rate (TIES_COUNT_AS_HALF_WIN example_keys) false
      = truediv (PyInt 4) (PyInt 6)
   /\ rate (TIES_COUNT_AS_THIRD_WIN example_keys) false =
        (third ← truediv (PyInt 2) (PyInt 3);
         numerator ← add (PyInt 3) third;
         truediv numerator (PyInt 6))
   /\ rate (TIES_COUNT_AS_WINS example_keys) false
      = truediv (PyInt 5) (PyInt 6))
  /\
  (rate (IGNORE_TIES example_keys) true = Ok (PyFloat 75%float)
   /\ rate (TIES_COUNT_AS_LOSSES example_keys) true = Ok (PyFloat 50%float)
   /\ rate (TIES_COUNT_AS_HALF_WIN example_keys) true
      = Ok (PyFloat (decimal1 667))
   /\ rate (TIES_COUNT_AS_THIRD_WIN example_keys) true
      = Ok (PyFloat (decimal1 611))
   /\ rate (TIES_COUNT_AS_WINS example_keys) true
      = Ok (PyFloat (decimal1 833)))
  /\
  (forall k, k ∈ strategy_keys example_keys ->
     rate k true =
       (r ← rate k false; x ← mul r (PyInt 100); Ok (round1 x))).
Proof.
  apply (result_rate_formulas example_keys).
  apply example_keys_distinct.
Defined.

(** C6. Under every known strategy, zero wins, losses and ties give the
    rate 0 (the integer 0, which equals 0.0, also with [percentage=True]);
    no input makes the function divide by zero; and whenever the formula's
    denominator is 0 the rate returned is 0. *)
Theorem zero_denominator_rate (c : RESULT_RATE_STRATEGY) (k : pystr) :
  k ∈ strategy_keys c ->
  (forall p, exists r,
      calculate_result_rate c k (PyInt 0) (PyInt 0) (PyInt 0) p = Ok r
      /\ r = PyInt 0 /\ num_eqb r (PyFloat 0%float) = true)
  /\ (forall w l t p, no_zero_division (calculate_result_rate c k w l t p))
  /\ (forall d w l t p numerator denominator,
        RESULT_RATE_STRATEGY_DETAILS c !! k = Some d ->
        CALCULATE d w l t = Ok (numerator, denominator) ->
        is_zero denominator = true ->
        calculate_result_rate c k w l t p = Ok (PyInt 0)).
Proof.
  intros Hk. destruct (details_known c k Hk) as (d & Hd & Hin).
  split; [| split].
  - intros p. exists (PyInt 0).
    rewrite (calculate_known c k d _ _ _ _ Hd).
    split; [| split; [ reflexivity | vm_compute; reflexivity ] ].
    revert Hin. cbn. rewrite !elem_of_cons, elem_of_nil.
    intros [-> | [-> | [-> | [-> | [-> | []]]]]];
      destruct p; vm_compute; reflexivity.
  - intros w l t p. rewrite (calculate_known c k d _ _ _ _ Hd).
    pose proof (formula_no_zero_division c d w l t Hin) as Hcalc.
    destruct (CALCULATE d w l t) as [[n den]|e].
    + apply bind_no_zero_division.
      * destruct (is_zero den) eqn:Hden;
          [ discriminate | apply truediv_no_zero_division, Hden ].
      * intros rate. destruct p; [| discriminate ].
        apply bind_no_zero_division;
          [ apply mul_no_zero_division | intros ?; discriminate ].
    + unfold no_zero_division in *. destruct e; congruence.
  - intros d' w l t p n den Hd' Hcalc Hden.
    rewrite (calculate_known c k d' _ _ _ _ Hd'), Hcalc, Hden.
    destruct p; reflexivity.
Qed.

Lemma zero_denominator_rate_witness :
  (forall p, exists r,
      calculate_result_rate example_keys (lit "ties_count_as_third_win")
        (PyInt 0) (PyInt 0) (PyInt 0) p = Ok r
      /\ r = PyInt 0 /\ num_eqb r (PyFloat 0%float) = true)
  /\ (forall w l t p,
        no_zero_division
          (calculate_result_rate example_keys
             (lit "ties_count_as_third_win") w l t p))
  /\ (forall d w l t p numerator denominator,
        RESULT_RATE_STRATEGY_DETAILS example_keys
          !! lit "ties_count_as_third_win" = Some d ->
        CALCULATE d w l t = Ok (numerator, denominator) ->
        is_zero denominator = true ->
        calculate_result_rate example_keys
          (lit "ties_count_as_third_win") w l t p = Ok (PyInt 0)).
Proof.
  apply (zero_denominator_rate example_keys (lit "ties_count_as_third_win")).
  apply (bool_decide_unpack _). vm_compute. reflexivity.
Defined.

(** C7. A strategy key outside the five fixed ones makes
    [calculate_result_rate] raise [ValueError] with a message that ends in
    the key, whatever the wins, losses, ties and percentage flag; no rate
    is returned. *)
Theorem unknown_strategy_raises (c : RESULT_RATE_STRATEGY) (k : pystr)
    (w l t : number) (p : bool) :
  k ∉ strategy_keys c ->
  calculate_result_rate c k w l t p =
    Raise (ValueError (lit "Unknown result rate strategy: " ++ k))
  /\ (forall r, calculate_result_rate c k w l t p <> Ok r).
Proof.
  intros Hk. rewrite (calculate_unknown c k w l t p Hk).
  split; [ reflexivity | discriminate ].
Qed.

Lemma unknown_strategy_raises_witness :
  calculate_result_rate example_keys (lit "coin_flip")
    (PyInt 3) (PyInt 1) (PyInt 2) true =
    Raise (ValueError (lit "Unknown result rate strategy: coin_flip"))
  /\ (forall r,
        calculate_result_rate example_keys (lit "coin_flip")
          (PyInt 3) (PyInt 1) (PyInt 2) true <> Ok r).
Proof.
  apply (unknown_strategy_raises example_keys (lit "coin_flip")).
  apply (bool_decide_unpack _). vm_compute. reflexivity.
Defined.

(** C10. For a strategy key outside the five fixed ones
    [create_result_rate_label] returns [None], with or without
    [formula_only], where [calculate_result_rate] raises. *)
Theorem unknown_strategy_label_is_none (c : RESULT_RATE_STRATEGY)
    (k : pystr) (formula_only : bool) :
  k ∉ strategy_keys c ->
  create_result_rate_label c k formula_only = None
  /\ (forall w l t p,
        calculate_result_rate c k w l t p =
        Raise (ValueError (lit "Unknown result rate strategy: " ++ k))).
Proof.
  intros Hk. split.
  - unfold create_result_rate_label.
    rewrite (details_unknown c k Hk). reflexivity.
  - intros w l t p. apply calculate_unknown, Hk.
Qed.

Lemma unknown_strategy_label_is_none_witness :
  create_result_rate_label example_keys (lit "coin_flip") false = None
  /\ (forall w l t p,
        calculate_result_rate example_keys (lit "coin_flip") w l t p =
        Raise (ValueError (lit "Unknown result rate strategy: coin_flip"))).
Proof.
  apply (unknown_strategy_label_is_none example_keys (lit "coin_flip") false).
  apply (bool_decide_unpack _). vm_compute. reflexivity.
Defined.

End ResultRateFacts.

(** * Properties of the Labs event scraper *)

Module LabEventsFacts.

Import LabEvents.

(** ** Text *)

Lemma find_from_none c s i : find_from c s i = -1 -> 0 <= i -> c ∉ s.
Proof.
  revert i. induction s as [|x s IH]; intros i Hf Hi; cbn in Hf.
  - apply not_elem_of_nil.
  - destruct (x =? c)%N eqn:Hx; [ lia | ].
    apply N.eqb_neq in Hx. apply not_elem_of_cons. split; [ congruence | ].
    apply (IH (i + 1)); [ exact Hf | lia ].
Qed.

Lemma find_from_some c s i j :
  find_from c s i = j -> 0 <= i -> j <> -1 ->
  exists pre post,
    s = pre ++ c :: post /\ (c ∉ pre) /\ j = i + Z.of_nat (length pre).
Proof.
  revert i. induction s as [|x s IH]; intros i Hf Hi Hj; cbn in Hf.
  - congruence.
  - destruct (x =? c)%N eqn:Hx.
    + apply N.eqb_eq in Hx. subst x. exists [], s.
      split; [ reflexivity | split; [ apply not_elem_of_nil | cbn; lia ] ].
    + apply N.eqb_neq in Hx.
      destruct (IH (i + 1) Hf (ltac:(lia)) Hj) as (pre & post & -> & Hpre & ->).
      exists (x :: pre), post.
      split; [ reflexivity | split ].
      * apply not_elem_of_cons. split; [ congruence | exact Hpre ].
      * cbn [length]. lia.
Qed.

Lemma find_absent c s : c ∉ s -> find c s = -1.
Proof.
  unfold find. generalize 0. induction s as [|x s IH]; intros i Hc.
  - reflexivity.
  - apply not_elem_of_cons in Hc as [Hx Hs]. cbn.
    destruct (x =? c)%N eqn:E; [ apply N.eqb_eq in E; congruence | ].
    apply IH, Hs.
Qed.

Lemma find_cases c s :
  (find c s = -1 /\ c ∉ s)
  \/ exists pre post,
       s = pre ++ c :: post /\ (c ∉ pre)
       /\ find c s = Z.of_nat (length pre).
Proof.
  destruct (Z.eq_dec (find c s) (-1)) as [E|E].
  - left. split; [ exact E | ].
    apply (find_from_none c s 0); [ exact E | lia ].
  - right.
    destruct (find_from_some c s 0 (find c s) eq_refl (ltac:(lia)) E)
      as (pre & post & Hs & Hpre & Hj).
    exists pre, post. split; [ exact Hs | split; [ exact Hpre | lia ] ].
Qed.

Lemma slice_to_last s : slice_to s (-1) = take (length s - 1)%nat s.
Proof.
  unfold slice_to, slice_bound. f_equal.
  change (-1 <? 0) with true. cbv iota. lia.
Qed.

Lemma slice_from_last s : slice_from s (-1) = drop (length s - 1)%nat s.
Proof.
  unfold slice_from, slice_bound. f_equal.
  change (-1 <? 0) with true. cbv iota. lia.
Qed.

Lemma slice_bound_nat len n :
  slice_bound len (Z.of_nat n) = Nat.min n len.
Proof.
  unfold slice_bound. destruct (Z.ltb_spec (Z.of_nat n) 0); lia.
Qed.


Lemma slice_from_prefix pre post :
  slice_from (pre ++ post) (Z.of_nat (length pre)) = post.
Proof.
  unfold slice_from. rewrite slice_bound_nat, length_app.
  rewrite Nat.min_l by lia. apply drop_app_length.
Qed.

(** The first occurrence of a character splits a text in one way. *)
Lemma first_occurrence_unique (c : N) (a b a' b' : pystr) :
  a ++ c :: b = a' ++ c :: b' -> c ∉ a -> c ∉ a' -> a = a' /\ b = b'.
Proof.
  revert a'. induction a as [|x a IH]; intros [|x' a'] E Ha Ha'; cbn in E.
  - injection E as ->. done.
  - injection E as <- _. exfalso. apply Ha'. apply list_elem_of_here.
  - injection E as -> _. exfalso. apply Ha. apply list_elem_of_here.
  - injection E as -> E.
    apply not_elem_of_cons in Ha as [_ Ha].
    apply not_elem_of_cons in Ha' as [_ Ha'].
    destruct (IH a' E Ha Ha') as [-> ->]. done.
Qed.

(** ** The pieces of the pattern *)

Lemma first_of_Some {A B} (f : A -> option B) l b :
  first_of f l = Some b -> exists a, a ∈ l /\ f a = Some b.
Proof.
  induction l as [|a l IH]; cbn; [ discriminate | ].
  destruct (f a) eqn:Ha.
  - intros [= ->]. exists a. split; [ apply list_elem_of_here | exact Ha ].
  - intros H. destruct (IH H) as (a' & Hin & Ha').
    exists a'. split; [ apply list_elem_of_further, Hin | exact Ha' ].
Qed.

Lemma strip_prefix_Some eqc p s rest :
  strip_prefix eqc p s = Some rest ->
  exists m, s = m ++ rest /\ Forall2 (fun x y => eqc x y = true) p m.
Proof.
  revert s. induction p as [|x p IH]; intros s; cbn.
  - intros [= ->]. exists []. split; [ reflexivity | constructor ].
  - destruct s as [|y s]; [ discriminate | ].
    destruct (eqc x y) eqn:E; [ | discriminate ].
    intros H. destruct (IH s H) as (m & -> & Hm).
    exists (y :: m). split; [ reflexivity | constructor; assumption ].
Qed.

Lemma ws_plus_Some {A} (k : pystr -> option A) s r :
  ws_plus k s = Some r ->
  exists w s', s = w ++ s' /\ w <> [] /\ Forall (fun c => isspace c = true) w
               /\ k s' = Some r.
Proof.
  induction s as [|c s IH]; cbn; [ discriminate | ].
  destruct (isspace c) eqn:Hc; [ | discriminate ].
  destruct (ws_plus k s) eqn:Hrec.
  - intros [= ->]. destruct (IH eq_refl) as (w & s' & -> & _ & Hw & Hk).
    exists (c :: w), s'. repeat split; [ discriminate | | exact Hk ].
    constructor; assumption.
  - intros Hk. exists [c], s. repeat split; [ discriminate | | exact Hk ].
    constructor; [ exact Hc | constructor ].
Qed.

Lemma classes_Some {A} cs (k : pystr -> pystr -> option A) seen s r :
  classes cs k seen s = Some r ->
  exists m s', s = m ++ s' /\ Forall2 (fun p c => p c = true) cs m
               /\ k (seen ++ m) s' = Some r.
Proof.
  revert seen s. induction cs as [|p cs IH]; intros seen s; cbn.
  - intros Hk. exists [], s. rewrite app_nil_r.
    split; [ reflexivity | split; [ constructor | exact Hk ] ].
  - destruct s as [|c s]; [ discriminate | ].
    destruct (p c) eqn:Hp; [ | discriminate ].
    intros H. destruct (IH _ _ H) as (m & s' & -> & Hm & Hk).
    exists (c :: m), s'. rewrite <- app_assoc in Hk.
    split; [ reflexivity | split; [ constructor; assumption | exact Hk ] ].
Qed.

(** Text matched by classes that reject the comma has no comma. *)
Lemma classes_reject_comma (cs : list (N -> bool)) (m : pystr) :
  Forall2 (fun p c => p c = true) cs m ->
  Forall (fun p => p COMMA = false) cs ->
  COMMA ∉ m.
Proof.
  induction 1 as [|p c cs m Hp _ IH]; intros Hcs.
  - apply not_elem_of_nil.
  - apply Forall_cons in Hcs as [Hc Hcs]. apply not_elem_of_cons.
    split; [ | apply IH, Hcs ].
    intros <-. congruence.
Qed.

Lemma spaces_no_comma (w : pystr) :
  Forall (fun c => isspace c = true) w -> COMMA ∉ w.
Proof.
  induction 1 as [|c w Hc _ IH].
  - apply not_elem_of_nil.
  - apply not_elem_of_cons. split; [ | exact IH ].
    intros <-. discriminate Hc.
Qed.

Lemma month_name_no_comma name m :
  name ∈ B_alternatives ->
  Forall2 (fun x y => ignore_case x y = true) name m ->
  COMMA ∉ m.
Proof.
  intros Hname Hm.
  assert (Hfree : COMMA ∉ name).
  { revert Hname. unfold B_alternatives. cbn [map].
    rewrite !elem_of_cons, elem_of_nil.
    intros H;
      repeat (destruct H as [-> | H];
              [ apply (bool_decide_unpack _); vm_compute; reflexivity | ]).
    destruct H. }
  clear Hname. induction Hm as [|x y name m Hxy _ IH].
  - apply not_elem_of_nil.
  - apply not_elem_of_cons in Hfree as [Hx Hfree].
    apply not_elem_of_cons. split; [ | apply IH, Hfree ].
    intros <-. unfold ignore_case in Hxy. apply N.eqb_eq in Hxy.
    apply Hx. rewrite Hxy. reflexivity.
Qed.

Lemma d_alternatives_reject_comma ud alt :
  alt ∈ d_alternatives ud -> Forall (fun p => p COMMA = false) alt.
Proof.
  unfold d_alternatives. rewrite !elem_of_cons, elem_of_nil.
  intros H; repeat (destruct H as [-> | H];
                    [ repeat constructor | ]).
  destruct H.
Qed.

(** ** What [strptime] accepts *)

Lemma format_regex_match_shape ud s found rest :
  format_regex_match ud s = Some (found, rest) ->
  exists a b,
    s = a ++ COMMA :: b ++ rest /\ (COMMA ∉ a) /\ (COMMA ∉ b) /\ b <> [].
Proof.
  unfold format_regex_match. intros H.
  apply first_of_Some in H as (name & Hname & H).
  destruct (strip_prefix ignore_case name s) as [s1|] eqn:Hmonth;
    [ | discriminate ].
  apply strip_prefix_Some in Hmonth as (m & -> & Hm).
  apply ws_plus_Some in H as (w1 & s2 & -> & _ & Hw1 & H).
  apply first_of_Some in H as (alt & Halt & H).
  apply classes_Some in H as (dtext & s3 & -> & Hd & H).
  apply classes_Some in H as (sep & s4 & -> & Hsep & H).
  apply ws_plus_Some in H as (w2 & s5 & -> & Hne & Hw2 & H).
  apply classes_Some in H as (ytext & s6 & -> & Hy & H).
  injection H as _ <-.
  apply Forall2_cons_inv_l in Hsep as (c & sep' & Hc & Hnil & ->).
  apply Forall2_nil_inv_l in Hnil as ->.
  apply N.eqb_eq in Hc. subst c.
  exists (m ++ w1 ++ dtext), (w2 ++ ytext).
  split; [ | split; [ | split ] ].
  - rewrite <- !app_assoc. reflexivity.
  - rewrite !not_elem_of_app. split; [ | split ].
    + eapply month_name_no_comma; eassumption.
    + apply spaces_no_comma, Hw1.
    + eapply classes_reject_comma;
        [ exact Hd | eapply d_alternatives_reject_comma, Halt ].
  - rewrite not_elem_of_app. split.
    + apply spaces_no_comma, Hw2.
    + eapply classes_reject_comma; [ exact Hy | repeat constructor ].
  - destruct w2; [ congruence | discriminate ].
Qed.

Lemma strptime_Ok_one_comma ud s date_obj :
  strptime ud s = Ok date_obj -> one_comma s.
Proof.
  unfold strptime.
  destruct (format_regex_match ud s) as [[found rest]|] eqn:Hm;
    [ | discriminate ].
  destruct rest; [ | discriminate ]. intros _.
  apply format_regex_match_shape in Hm as (a & b & Hs & Ha & Hb & Hne).
  rewrite app_nil_r in Hs. exists a, b. auto.
Qed.

Lemma bind_only_value_error {A C} (r : result A) (k : A -> result C) :
  only_value_error r -> (forall a, only_value_error (k a)) ->
  only_value_error (r ≫= k).
Proof.
  destruct r as [a|e]; cbn; intros Hr Hk; [ apply Hk | exact Hr ].
Qed.

Lemma int_of_only_value_error ud s : only_value_error (int_of ud s).
Proof.
  unfold int_of. destruct (Nat.eqb _ _); [ exact I | ].
  destruct (Nat.ltb _ _); [ exact I | ].
  generalize (lstrip s). intros digits.
  assert (H : only_value_error (Ok 0 : result Z)) by exact I.
  revert H. generalize (Ok 0 : result Z).
  induction digits as [|c digits IH]; intros acc Hacc; cbn [foldl].
  - exact Hacc.
  - apply IH. apply bind_only_value_error; [ exact Hacc | ].
    intros n. destruct (decimal_value ud c); exact I.
Qed.

Lemma index_from_only_value_error x l i :
  only_value_error (index_from x l i).
Proof.
  revert i. induction l as [|y l IH]; intros i; cbn.
  - exact I.
  - destruct (bool_decide (x = y)); [ exact I | apply IH ].
Qed.

Lemma strptime_only_value_error ud s : only_value_error (strptime ud s).
Proof.
  unfold strptime.
  destruct (format_regex_match ud s) as [[found rest]|]; [ | exact I ].
  destruct rest; [ | exact I ].
  apply bind_only_value_error; [ apply index_from_only_value_error | ].
  intros m. apply bind_only_value_error; [ apply int_of_only_value_error | ].
  intros dd. apply bind_only_value_error; [ apply int_of_only_value_error | ].
  intros y. destruct (_ && _); exact I.
Qed.

(** The handler turns every failure of [strptime] into a null date. *)
Lemma parse_date_cases env text2 :
  match strptime (unicode_decimal env) (date_str text2) with
  | Ok date_obj => parse_date env text2 = Ok (Some (strftime date_obj))
  | Raise _ => parse_date env text2 = Ok None
  end.
Proof.
  unfold parse_date.
  pose proof (strptime_only_value_error (unicode_decimal env)
                (date_str text2)) as H.
  destruct (strptime _ _) as [date_obj|e]; cbn.
  - reflexivity.
  - destruct e; cbn in H; first [ reflexivity | destruct H ].
Qed.

Lemma parse_date_not_one_comma env text2 :
  ~ one_comma (date_str text2) -> parse_date env text2 = Ok None.
Proof.
  intros Hno. pose proof (parse_date_cases env text2) as H.
  destruct (strptime _ _) as [date_obj|e] eqn:Hs; [ | exact H ].
  exfalso. apply Hno. eapply strptime_Ok_one_comma, Hs.
Qed.

(** ** The spliced text of a malformed date *)

Lemma one_comma_has_comma s : one_comma s -> COMMA ∈ s.
Proof.
  intros (a & b & -> & _). apply elem_of_app. right. apply list_elem_of_here.
Qed.

Lemma date_str_no_comma text2 :
  COMMA ∉ text2 -> ~ one_comma (date_str text2).
Proof.
  intros Hno Hone. apply one_comma_has_comma in Hone.
  unfold date_str, slice_to, slice_from in Hone.
  apply elem_of_app in Hone as [H|H]; apply Hno.
  - eapply subseteq_take, H.
  - eapply subseteq_drop, H.
Qed.

Lemma date_str_no_dash text2 :
  EN_DASH ∉ text2 -> ~ one_comma (date_str text2).
Proof.
  intros Hdash. unfold date_str. rewrite (find_absent _ _ Hdash).
  destruct (find_cases COMMA text2)
    as [[_ Hno] | (pre & post & Ht & Hpre & Hfind)].
  - intros Hone. apply (date_str_no_comma text2 Hno).
    unfold date_str. rewrite (find_absent _ _ Hdash). exact Hone.
  - rewrite Hfind, slice_to_last. subst text2.
    rewrite (slice_from_prefix pre (COMMA :: post)).
    rewrite length_app. cbn [length].
    replace (length pre + S (length post) - 1)%nat
      with (length pre + length post)%nat by lia.
    rewrite take_app_add'; [ | reflexivity ].
    intros (a & b & E & Ha & Hb & Hne).
    destruct post as [|c post];
      cbn [length take] in E; rewrite <- app_assoc in E; cbn [app] in E;
      symmetry in E;
      apply first_occurrence_unique in E as [_ Hb'];
      [ | exact Ha | exact Hpre | | exact Ha | exact Hpre ].
    + congruence.
    + apply Hb. rewrite Hb'. apply elem_of_app. right. apply list_elem_of_here.
Qed.

(** ** The listing parser *)

Lemma parse_date_total env text2 :
  exists date, parse_date env text2 = Ok date.
Proof.
  pose proof (parse_date_cases env text2) as H.
  destruct (strptime _ _); eauto.
Qed.

Lemma visit_li_total env acc li : exists acc', visit_li env acc li = Ok acc'.
Proof.
  unfold visit_li. destruct acc as [[ids names] dates].
  destruct (find_child "a" li) as [a|]; [ | eauto ].
  destruct (href_of a) as [href|]; [ | eauto ].
  destruct (Nat.ltb _ _); [ eauto | ].
  destruct (inner_texts a) as [text1 text2].
  destruct text2 as [[|c t]|]; [ eauto | | eauto ].
  destruct (parse_date_total env (c :: t)) as [date ->]. cbn. eauto.
Qed.

Lemma for_each_li_total env lis acc :
  exists acc', for_each_li env lis acc = Ok acc'.
Proof.
  revert acc. induction lis as [|li lis IH]; intros acc; cbn.
  - eauto.
  - destruct (visit_li_total env acc li) as [acc' ->]. cbn. apply IH.
Qed.

Lemma visit_li_skips env acc li :
  qualifies li = false -> visit_li env acc li = Ok acc.
Proof.
  unfold qualifies, visit_li. destruct acc as [[ids names] dates].
  destruct (find_child "a" li) as [a|]; [ | reflexivity ].
  destruct (href_of a) as [href|]; [ | reflexivity ].
  destruct (Nat.ltb _ _); [ reflexivity | discriminate ].
Qed.

Lemma for_each_li_skips env lis acc :
  Forall (fun li => qualifies li = false) lis ->
  for_each_li env lis acc = Ok acc.
Proof.
  induction 1 as [|li lis Hli _ IH]; cbn.
  - reflexivity.
  - rewrite (visit_li_skips env acc li Hli). cbn. exact IH.
Qed.

Lemma visit_li_null_date env ids names dates li text2 :
  qualifies li = true ->
  date_text li = Some text2 ->
  parse_date env text2 = Ok None ->
  exists tournament_id name,
    visit_li env (ids, names, dates) li
    = Ok (ids ++ [tournament_id], names ++ [name], dates ++ [None]).
Proof.
  unfold qualifies, date_text, visit_li.
  destruct (find_child "a" li) as [a|]; [ | discriminate ].
  destruct (href_of a) as [href|]; [ | discriminate ].
  destruct (Nat.ltb _ _); [ discriminate | ]. intros _.
  destruct (inner_texts a) as [text1 t2]. cbn [snd]. intros -> Hparse.
  destruct text2 as [|c t]; [ eauto | ].
  rewrite Hparse. cbn. eauto.
Qed.

(** C2 (as amended). The date text "July 12–14, 2025", with the en-dash
    right after the first day, gives "2025-07-12", and so does a space
    after the en-dash only. With a space before the en-dash the text given
    to [strptime] is "July 12 , 2025", which the format rejects: the date
    is null. *)
Theorem date_normalization_example (env : environment) :
  parse_date env (with_dash "July 12" "14, 2025")
    = Ok (Some (lit "2025-07-12"))
  /\ parse_date env (with_dash "July 12" " 14, 2025")
     = Ok (Some (lit "2025-07-12"))
  /\ date_str (with_dash "July 12 " " 14, 2025") = lit "July 12 , 2025"
  /\ parse_date env (with_dash "July 12 " " 14, 2025") = Ok None.
Proof. repeat split; vm_compute; reflexivity. Qed.

(** C2 (as stated) fails: under no environment does the date text
    "July 12 – 14, 2025", with a space on each side of the en-dash, give
    "2025-07-12". *)
Lemma spaced_date_range_is_not_parsed :
  ~ exists env,
      parse_date env (with_dash "July 12 " " 14, 2025")
      = Ok (Some (lit "2025-07-12")).
Proof. intros [env H]. vm_compute in H. discriminate H. Qed.

(** C3. The date step never raises: it returns a date or null. It returns
    null whenever [strptime] rejects the spliced text, and in particular
    for every text without a comma and for every text without an en-dash;
    the item is then recorded with a null date, and the loop body never
    raises. *)
Theorem malformed_date_is_null (env : environment) (text2 : pystr) :
  (exists date, parse_date env text2 = Ok date)
  /\ (forall e,
        strptime (unicode_decimal env) (date_str text2) = Raise e ->
        parse_date env text2 = Ok None)
  /\ (COMMA ∉ text2 -> parse_date env text2 = Ok None)
  /\ (EN_DASH ∉ text2 -> parse_date env text2 = Ok None)
  /\ (forall ids names dates li,
        qualifies li = true -> date_text li = Some text2 ->
        parse_date env text2 = Ok None ->
        exists tournament_id name,
          visit_li env (ids, names, dates) li
          = Ok (ids ++ [tournament_id], names ++ [name], dates ++ [None]))
  /\ (forall acc li, exists acc', visit_li env acc li = Ok acc').
Proof.
  repeat split.
  - apply parse_date_total.
  - intros e He. pose proof (parse_date_cases env text2) as H.
    rewrite He in H. exact H.
  - intros H. apply parse_date_not_one_comma, date_str_no_comma, H.
  - intros H. apply parse_date_not_one_comma, date_str_no_dash, H.
  - intros ids names dates li. apply visit_li_null_date.
  - intros acc li. apply visit_li_total.
Qed.

Lemma malformed_date_is_null_witness :
  parse_date (example_env []) (lit "July 12, 2025") = Ok None
  /\ parse_date (example_env []) (with_dash "July 12 " " 14 2025") = Ok None
  /\ exists tournament_id name,
       visit_li (example_env []) ([], [], [])
         (example_item (lit "/0042/standings") (lit "Spring Cup")
            (lit "July 12, 2025"))
       = Ok ([tournament_id], [name], [None]).
Proof.
  destruct (malformed_date_is_null (example_env []) (lit "July 12, 2025"))
    as (_ & _ & _ & Hdash & Hitem & _).
  destruct (malformed_date_is_null (example_env [])
              (with_dash "July 12 " " 14 2025"))
    as (_ & _ & Hcomma & _).
  split; [ | split ].
  - apply Hdash. apply (bool_decide_unpack _). vm_compute. reflexivity.
  - apply Hcomma. apply (bool_decide_unpack _). vm_compute. reflexivity.
  - apply Hitem.
    + reflexivity.
    + reflexivity.
    + vm_compute. reflexivity.
Defined.

(** C4. A document without the [ul.grid] container makes the parser raise
    [ValueError]; a document whose container has no item to keep gives
    three empty lists; and with the container present the parser never
    raises. *)
Theorem missing_container_is_fatal (env : environment) (page_html : pystr) :
  (select_one (BeautifulSoup env page_html) = None ->
   extract_labs_list_items env page_html
   = Raise (ValueError (lit "No <ul class='grid'> found")))
  /\ (forall ul,
        select_one (BeautifulSoup env page_html) = Some ul ->
        Forall (fun li => qualifies li = false) (find_all "li" ul) ->
        extract_labs_list_items env page_html = Ok ([], [], []))
  /\ (forall ul,
        select_one (BeautifulSoup env page_html) = Some ul ->
        exists l, extract_labs_list_items env page_html = Ok l).
Proof.
  unfold extract_labs_list_items. repeat split.
  - intros ->. reflexivity.
  - intros ul -> Hlis. apply for_each_li_skips, Hlis.
  - intros ul ->. apply for_each_li_total.
Qed.

Lemma missing_container_is_fatal_witness :
  extract_labs_list_items (example_env no_container) []
  = Raise (ValueError (lit "No <ul class='grid'> found"))
  /\ extract_labs_list_items (example_env no_items) [] = Ok ([], [], []).
Proof.
  split.
  - apply (missing_container_is_fatal (example_env no_container) []).
    reflexivity.
  - eapply (missing_container_is_fatal (example_env no_items) []).
    + reflexivity.
    + repeat constructor.
Defined.

(** ** The order of the sort keys *)

Lemma str_compare_eq a b : str_compare a b = Eq -> a = b.
Proof.
  revert b. induction a as [|x a IH]; intros [|y b]; cbn; try discriminate.
  - reflexivity.
  - destruct (x ?= y)%N eqn:E; try discriminate.
    apply N.compare_eq in E. intros H. rewrite (IH b H), E. reflexivity.
Qed.

Lemma str_compare_antisym a b :
  str_compare b a = CompOpp (str_compare a b).
Proof.
  revert b. induction a as [|x a IH]; intros [|y b]; cbn; try reflexivity.
  rewrite (N.compare_antisym x y).
  destruct (x ?= y)%N; cbn; [ apply IH | reflexivity | reflexivity ].
Qed.

Lemma str_compare_trans a b c :
  str_compare a b = Lt -> str_compare b c = Lt -> str_compare a c = Lt.
Proof.
  revert b c. induction a as [|x a IH]; intros [|y b] [|z c]; cbn;
    try discriminate; try reflexivity.
  destruct (x ?= y)%N eqn:Exy; try discriminate;
    destruct (y ?= z)%N eqn:Eyz; try discriminate; intros Hab Hbc.
  - apply N.compare_eq in Exy, Eyz. subst. rewrite N.compare_refl.
    eapply IH; eassumption.
  - apply N.compare_eq in Exy. subst. rewrite Eyz. reflexivity.
  - apply N.compare_eq in Eyz. subst. rewrite Exy. reflexivity.
  - rewrite N.compare_lt_iff in Exy, Eyz.
    assert (x < z)%N as Hxz by lia.
    rewrite <- N.compare_lt_iff in Hxz. rewrite Hxz. reflexivity.
Qed.

Lemma key_lt_compare a b : key_lt a b = true <-> key_compare a b = Lt.
Proof.
  unfold key_lt, key_compare.
  destruct (str_compare a.1 b.1); [ | tauto | split; discriminate ].
  destruct (str_compare a.2 b.2); split; congruence.
Qed.

Lemma key_compare_eq a b : key_compare a b = Eq -> a = b.
Proof.
  unfold key_compare. destruct a as [a1 a2], b as [b1 b2]. cbn.
  destruct (str_compare a1 b1) eqn:E1; try discriminate.
  intros E2. apply str_compare_eq in E1, E2. congruence.
Qed.

Lemma key_compare_antisym a b :
  key_compare b a = CompOpp (key_compare a b).
Proof.
  unfold key_compare. rewrite (str_compare_antisym a.1 b.1).
  destruct (str_compare a.1 b.1); cbn;
    [ apply str_compare_antisym | reflexivity | reflexivity ].
Qed.

Lemma key_compare_trans a b c :
  key_compare a b = Lt -> key_compare b c = Lt -> key_compare a c = Lt.
Proof.
  unfold key_compare.
  destruct (str_compare a.1 b.1) eqn:Eab; try discriminate;
    destruct (str_compare b.1 c.1) eqn:Ebc; try discriminate;
    intros Hab Hbc.
  - apply str_compare_eq in Eab, Ebc.
    replace (str_compare a.1 c.1) with Eq.
    + eapply str_compare_trans; eassumption.
    + symmetry. rewrite Eab, Ebc.
      pose proof (str_compare_antisym c.1 c.1) as H.
      destruct (str_compare c.1 c.1); [ reflexivity | discriminate H
                                      | discriminate H ].
  - apply str_compare_eq in Eab. rewrite Eab, Ebc. reflexivity.
  - apply str_compare_eq in Ebc. rewrite <- Ebc, Eab. reflexivity.
  - rewrite (str_compare_trans _ _ _ Eab Ebc). reflexivity.
Qed.

(** [a < b] excludes [b < a]. *)
Lemma key_lt_asym a b : key_lt a b = true -> key_lt b a = false.
Proof.
  rewrite key_lt_compare. intros H.
  destruct (key_lt b a) eqn:E; [ | reflexivity ].
  apply key_lt_compare in E.
  rewrite key_compare_antisym, H in E. discriminate E.
Qed.

(** [a <= b] and [b <= c] give [a <= c], where [x <= y] is "not [y < x]". *)
Lemma key_le_trans a b c :
  key_lt b a = false -> key_lt c b = false -> key_lt c a = false.
Proof.
  intros Hab Hbc. destruct (key_lt c a) eqn:Hca; [ | reflexivity ].
  exfalso. apply key_lt_compare in Hca.
  destruct (key_compare c b) eqn:Ecb.
  - apply key_compare_eq in Ecb. subst c.
    apply key_lt_compare in Hca. congruence.
  - apply key_lt_compare in Ecb. congruence.
  - assert (key_compare b c = Lt) as Hlt
      by (rewrite key_compare_antisym, Ecb; reflexivity).
    pose proof (key_compare_trans _ _ _ Hlt Hca) as H.
    apply key_lt_compare in H. congruence.
Qed.

(** ** The sort *)

Lemma insert_sorted_Permutation x l : insert_sorted x l ≡ₚ x :: l.
Proof.
  induction l as [|y l IH]; cbn.
  - reflexivity.
  - destruct (key_lt (sort_key y) (sort_key x)); [ | reflexivity ].
    rewrite IH. apply Permutation_swap.
Qed.

Lemma stable_sort_Permutation l : stable_sort l ≡ₚ l.
Proof.
  induction l as [|x l IH]; cbn.
  - reflexivity.
  - rewrite insert_sorted_Permutation, IH. reflexivity.
Qed.

Lemma sort_reverse_Permutation l : sort_reverse l ≡ₚ l.
Proof.
  unfold sort_reverse.
  rewrite <- Permutation_rev, stable_sort_Permutation, <- Permutation_rev.
  reflexivity.
Qed.

(** Ascending: no later record has a smaller key than an earlier one. *)
Lemma insert_sorted_ascending x l :
  StronglySorted (fun a b => key_lt (sort_key b) (sort_key a) = false) l ->
  StronglySorted (fun a b => key_lt (sort_key b) (sort_key a) = false)
    (insert_sorted x l).
Proof.
  induction 1 as [|y l Hl IH Hy]; cbn.
  - repeat constructor.
  - destruct (key_lt (sort_key y) (sort_key x)) eqn:Hyx.
    + constructor; [ exact IH | ].
      rewrite insert_sorted_Permutation. constructor; [ | exact Hy ].
      apply key_lt_asym, Hyx.
    + constructor; [ constructor; assumption | ].
      constructor; [ exact Hyx | ].
      eapply Forall_impl; [ exact Hy | ].
      intros z Hz. cbn in Hz. eapply key_le_trans; eassumption.
Qed.

Lemma stable_sort_ascending l :
  StronglySorted (fun a b => key_lt (sort_key b) (sort_key a) = false)
    (stable_sort l).
Proof.
  induction l as [|x l IH]; cbn.
  - constructor.
  - apply insert_sorted_ascending, IH.
Qed.

Lemma StronglySorted_rev {A} (R : A -> A -> Prop) l :
  StronglySorted R l -> StronglySorted (fun a b => R b a) (rev l).
Proof.
  induction 1 as [|x l Hl IH Hx]; cbn.
  - constructor.
  - apply StronglySorted_app_2; [ | exact IH | repeat constructor ].
    intros a b Ha Hb. apply list_elem_of_In, in_rev, list_elem_of_In in Ha.
    apply list_elem_of_singleton in Hb. subst b.
    rewrite Forall_forall in Hx. apply Hx, Ha.
Qed.

Lemma sort_reverse_descending l : descending (sort_reverse l).
Proof.
  unfold descending, sort_reverse.
  apply (StronglySorted_rev
           (fun a b => key_lt (sort_key b) (sort_key a) = false)).
  apply stable_sort_ascending.
Qed.

(** ** The two loops *)

Lemma visit_division_events env ex b g f item st division :
  events (visit_division env ex b g f item st division)
  = events st ++ [record_for env ex b g f (item, division)].
Proof.
  unfold visit_division, record_for, pair_id, composite_id, tournament_of.
  cbn [fst snd]. destruct (ex !! _); reflexivity.
Qed.

Lemma visit_division_fetch_count env ex b g f item st division :
  fetch_count (visit_division env ex b g f item st division)
  = (fetch_count st + misses ex [(item, division)])%nat.
Proof.
  unfold visit_division, misses, hit, pair_id, composite_id, tournament_of.
  cbn [fst snd filter list_filter].
  destruct (ex !! _); case_decide; try discriminate; try congruence;
    cbn; lia.
Qed.

Lemma visit_division_cached_count env ex b g f item st division :
  cached_count (visit_division env ex b g f item st division)
  = (cached_count st + hits ex [(item, division)])%nat.
Proof.
  unfold visit_division, hits, hit, pair_id, composite_id, tournament_of.
  cbn [fst snd filter list_filter].
  destruct (ex !! _); case_decide; try discriminate; try congruence;
    cbn; lia.
Qed.

Lemma misses_app ex l k : misses ex (l ++ k) = (misses ex l + misses ex k)%nat.
Proof. unfold misses. rewrite filter_app, length_app. reflexivity. Qed.

Lemma hits_app ex l k : hits ex (l ++ k) = (hits ex l + hits ex k)%nat.
Proof. unfold hits. rewrite filter_app, length_app. reflexivity. Qed.

Lemma inner_loop env ex b g f item ds st :
  let st' := foldl (visit_division env ex b g f item) st ds in
  let ps := map (fun division => (item, division)) ds in
  events st' = events st ++ map (record_for env ex b g f) ps
  /\ fetch_count st' = (fetch_count st + misses ex ps)%nat
  /\ cached_count st' = (cached_count st + hits ex ps)%nat.
Proof.
  revert st. induction ds as [|division ds IH]; intros st; cbn [foldl map].
  - rewrite app_nil_r. unfold misses, hits. cbn. repeat split; lia.
  - destruct (IH (visit_division env ex b g f item st division))
      as (He & Hf & Hc).
    cbv zeta in *. rewrite He, Hf, Hc.
    rewrite visit_division_events, visit_division_fetch_count,
      visit_division_cached_count.
    change ((item, division) :: map (fun d => (item, d)) ds)
      with ([(item, division)] ++ map (fun d => (item, d)) ds).
    rewrite misses_app, hits_app, <- app_assoc.
    repeat split; cbn [app map]; lia.
Qed.

Lemma outer_loop env ex b g f its st :
  let st' := foldl (visit_tournament env ex b g f) st its in
  events st' = events st ++ map (record_for env ex b g f) (pairs its)
  /\ fetch_count st' = (fetch_count st + misses ex (pairs its))%nat
  /\ cached_count st' = (cached_count st + hits ex (pairs its))%nat.
Proof.
  revert st. induction its as [|item its IH]; intros st; cbn [foldl].
  - unfold pairs, misses, hits. cbn. rewrite app_nil_r. repeat split; lia.
  - destruct (IH (visit_tournament env ex b g f st item)) as (He & Hf & Hc).
    destruct (inner_loop env ex b g f item divisions st) as (He' & Hf' & Hc').
    cbv zeta in *. unfold visit_tournament in *.
    rewrite He, Hf, Hc, He', Hf', Hc'.
    unfold pairs. cbn [flat_map]. fold (pairs its).
    rewrite misses_app, hits_app, map_app, <- app_assoc.
    repeat split; lia.
Qed.

(** A run that gets the listing returns the sorted records of its pairs. *)
Lemma scrape_with_listing env fs base_url output_file game format
    html ids names dates :
  fetch_html env (with_trailing_slash base_url) = Ok html ->
  extract_labs_list_items env html = Ok (ids, names, dates) ->
  let ex := load_existing_events fs output_file in
  let ps := pairs (zip3 ids names dates) in
  let sorted :=
    sort_reverse
      (map (record_for env ex (with_trailing_slash base_url) game format)
           ps) in
  scrape_labs_events env fs base_url output_file game format
  = Ok {| returned := sorted;
          summary_cached := hits ex ps;
          summary_fetched := misses ex ps;
          files := <[ output_file := JsonArray sorted ]> fs |}.
Proof.
  intros Hfetch Hlist. cbv zeta. unfold scrape_labs_events.
  rewrite Hfetch. cbn. rewrite Hlist. cbn.
  destruct (outer_loop env (load_existing_events fs output_file)
              (with_trailing_slash base_url) game format
              (zip3 ids names dates)
              {| events := []; fetch_count := 0; cached_count := 0 |})
    as (He & Hf & Hc).
  cbv zeta in *. rewrite He, Hf, Hc. reflexivity.
Qed.

Lemma scrape_Ok_listing env fs base_url output_file game format o :
  scrape_labs_events env fs base_url output_file game format = Ok o ->
  exists html ids names dates,
    fetch_html env (with_trailing_slash base_url) = Ok html
    /\ extract_labs_list_items env html = Ok (ids, names, dates).
Proof.
  unfold scrape_labs_events.
  destruct (fetch_html env (with_trailing_slash base_url)) as [html|e]
    eqn:Hfetch; [ | discriminate ].
  cbn. destruct (extract_labs_list_items env html)
    as [[[ids names] dates]|e] eqn:Hlist; [ | discriminate ].
  intros _. exists html, ids, names, dates. split; [ reflexivity | exact Hlist ].
Qed.

(** ** The snapshot dictionary *)

Lemma by_id_snoc l e :
  by_id (l ++ [e])
  = match ev_id e with
    | Some k => <[ k := e ]> (by_id l)
    | None => by_id l
    end.
Proof. unfold by_id. rewrite foldl_snoc. reflexivity. Qed.

Lemma by_id_lookup l k e :
  by_id l !! k = Some e -> e ∈ l /\ ev_id e = Some k.
Proof.
  induction l as [|x l IH] using rev_ind.
  - unfold by_id. cbn. rewrite lookup_empty. discriminate.
  - rewrite by_id_snoc, elem_of_app, list_elem_of_singleton.
    destruct (ev_id x) as [k'|] eqn:Hx.
    + rewrite lookup_insert. case_decide as Hk.
      * intros [= <-]. subst k'. auto.
      * intros H. destruct (IH H). auto.
    + intros H. destruct (IH H). auto.
Qed.

Lemma by_id_lookup_is_Some l k e :
  e ∈ l -> ev_id e = Some k -> is_Some (by_id l !! k).
Proof.
  induction l as [|x l IH] using rev_ind.
  - intros H. apply elem_of_nil in H. destruct H.
  - rewrite by_id_snoc, elem_of_app, list_elem_of_singleton.
    intros [Hin | ->] Hk.
    + destruct (ev_id x) as [k'|]; [ | auto ].
      rewrite lookup_insert. case_decide; [ eauto | auto ].
    + rewrite Hk, lookup_insert_eq. eauto.
Qed.

Lemma by_id_lookup_unique l k e :
  e ∈ l -> ev_id e = Some k ->
  (forall e', e' ∈ l -> ev_id e' = Some k -> e' = e) ->
  by_id l !! k = Some e.
Proof.
  induction l as [|x l IH] using rev_ind.
  - intros H. apply elem_of_nil in H. destruct H.
  - rewrite by_id_snoc. intros Hin Hk Huniq.
    assert (Hl : forall e', e' ∈ l -> ev_id e' = Some k -> e' = e).
    { intros e' He'. apply Huniq, elem_of_app. left. exact He'. }
    assert (Hx : x ∈ l ++ [x]).
    { apply elem_of_app. right. apply list_elem_of_here. }
    apply elem_of_app in Hin as [Hin | Hin].
    + destruct (ev_id x) as [k'|] eqn:Ex; [ | auto ].
      rewrite lookup_insert. case_decide as Hkk; [ | auto ].
      subst k'. rewrite (Huniq x Hx Ex). reflexivity.
    + apply list_elem_of_singleton in Hin. subst x.
      rewrite Hk, lookup_insert_eq. reflexivity.
Qed.

Lemma by_id_Permutation l l' k e :
  l ≡ₚ l' ->
  e ∈ l -> ev_id e = Some k ->
  (forall e', e' ∈ l -> ev_id e' = Some k -> e' = e) ->
  by_id l' !! k = Some e.
Proof.
  intros Hp Hin Hk Huniq. apply by_id_lookup_unique.
  - rewrite <- Hp. exact Hin.
  - exact Hk.
  - intros e' He'. apply Huniq. rewrite Hp. exact He'.
Qed.

Lemma load_lookup fs output_file k e :
  load_existing_events fs output_file !! k = Some e -> ev_id e = Some k.
Proof.
  unfold load_existing_events.
  destruct (fs !! output_file) as [[l|]|];
    [ | rewrite lookup_empty; discriminate
      | rewrite lookup_empty; discriminate ].
  intros H. apply by_id_lookup in H as [_ H]. exact H.
Qed.

Lemma load_after_write fs output_file l :
  load_existing_events (<[ output_file := JsonArray l ]> fs) output_file
  = by_id l.
Proof. unfold load_existing_events. rewrite lookup_insert_eq. reflexivity. Qed.

Lemma new_event_id env b g f item division :
  ev_id (new_event env b g f item division) = Some (pair_id (item, division)).
Proof. destruct item as [[t n] dt]. reflexivity. Qed.

Lemma record_for_id env ex b g f p :
  (forall k e, ex !! k = Some e -> ev_id e = Some k) ->
  ev_id (record_for env ex b g f p) = Some (pair_id p).
Proof.
  intros Hex. unfold record_for.
  destruct (ex !! pair_id p) as [cached|] eqn:E.
  - apply Hex, E.
  - destruct p as [item division]. apply new_event_id.
Qed.

(** ** Composite ids *)

Lemma map_fmap {A C} (f : A -> C) (l : list A) : map f l = f <$> l.
Proof. reflexivity. Qed.

Lemma elem_of_map {A C} (f : A -> C) (l : list A) (y : C) :
  y ∈ map f l <-> exists x, y = f x /\ x ∈ l.
Proof. rewrite map_fmap. apply list_elem_of_fmap. Qed.

Lemma NoDup_map_inj_on {A C} (f : A -> C) (l : list A) x y :
  NoDup (map f l) -> x ∈ l -> y ∈ l -> f x = f y -> x = y.
Proof.
  induction l as [|a l IH]; cbn [map].
  - intros _ H. apply elem_of_nil in H. destruct H.
  - rewrite NoDup_cons, !elem_of_cons. intros [Ha Hnd] [->|Hx] [->|Hy] E.
    + reflexivity.
    + exfalso. apply Ha. rewrite E. apply elem_of_map. eauto.
    + exfalso. apply Ha. rewrite <- E. apply elem_of_map. eauto.
    + apply IH; assumption.
Qed.

Lemma division_length division :
  division ∈ divisions -> length division = 2%nat.
Proof.
  unfold divisions. rewrite !elem_of_cons, elem_of_nil.
  intros [-> | [-> | [-> | []]]]; reflexivity.
Qed.

(** The composite id determines the tournament and the division. *)
Lemma composite_id_inj t t' division division' :
  division ∈ divisions -> division' ∈ divisions ->
  composite_id t division = composite_id t' division' ->
  t = t' /\ division = division'.
Proof.
  intros Hd Hd' E. unfold composite_id in E.
  apply app_inj_2 in E as [-> E].
  - split; [ reflexivity | ]. cbn in E. congruence.
  - rewrite !length_app, (division_length _ Hd), (division_length _ Hd').
    reflexivity.
Qed.

Lemma elem_of_pairs its p :
  p ∈ pairs its <-> p.1 ∈ its /\ p.2 ∈ divisions.
Proof.
  unfold pairs. rewrite list_elem_of_In, in_flat_map. split.
  - intros (item & Hitem & Hp). apply in_map_iff in Hp as (d & <- & Hd).
    cbn. rewrite !list_elem_of_In. auto.
  - intros [Hitem Hd].
    apply list_elem_of_In in Hitem. apply list_elem_of_In in Hd.
    exists p.1. split; [ exact Hitem | ].
    apply in_map_iff. exists p.2. destruct p. auto.
Qed.

Lemma zip3_tournaments ids names dates :
  map tournament_of (zip3 ids names dates) `sublist_of` ids.
Proof.
  revert names dates. induction ids as [|i ids IH]; intros names dates.
  - constructor.
  - destruct names as [|n names];
      [ cbn; apply sublist_nil_l | ].
    destruct dates as [|d dates]; [ cbn; apply sublist_nil_l | ].
    cbn. apply sublist_skip, IH.
Qed.

Lemma pair_ids_NoDup its :
  NoDup (map tournament_of its) -> NoDup (map pair_id (pairs its)).
Proof.
  induction its as [|item its IH]; cbn [map].
  - intros _. constructor.
  - rewrite NoDup_cons. intros [Hitem Hnd].
    unfold pairs. cbn [flat_map]. fold (pairs its).
    rewrite map_app. apply NoDup_app. split; [ | split ].
    + unfold divisions. cbn [map]. unfold pair_id. cbn [fst snd].
      assert (forall a b, a ∈ divisions -> b ∈ divisions -> a <> b ->
                composite_id (tournament_of item) a
                <> composite_id (tournament_of item) b) as Hne.
      { intros a b Ha Hb Hab E.
        apply composite_id_inj in E as [_ E]; auto. }
      rewrite !NoDup_cons, !not_elem_of_cons.
      repeat split;
        try (apply not_elem_of_nil); try (apply NoDup_nil_2);
        (apply Hne;
         [ unfold divisions;
           repeat first [ apply list_elem_of_here
                        | apply list_elem_of_further ]
         | unfold divisions;
           repeat first [ apply list_elem_of_here
                        | apply list_elem_of_further ]
         | intros E; vm_compute in E; discriminate E ]).
    + intros x Hx Hx'.
      apply elem_of_map in Hx as (p & -> & Hp).
      apply elem_of_map in Hx' as (p' & E & Hp').
      apply elem_of_map in Hp as (d & -> & Hd).
      apply elem_of_pairs in Hp' as [Hitem' Hd'].
      unfold pair_id in E. cbn [fst snd] in E.
      apply composite_id_inj in E as [E _];
        [ | exact Hd | exact Hd' ].
      apply Hitem. rewrite E. apply elem_of_map. eauto.
    + apply IH, Hnd.
Qed.

Lemma listing_pair_ids_NoDup ids names dates :
  NoDup ids -> NoDup (map pair_id (pairs (zip3 ids names dates))).
Proof.
  intros Hnd. apply pair_ids_NoDup.
  eapply sublist_NoDup; [ exact Hnd | apply zip3_tournaments ].
Qed.

Lemma all_hits ex l :
  (forall p, p ∈ l -> hit ex p = true) ->
  misses ex l = 0%nat /\ hits ex l = length l.
Proof.
  unfold misses, hits. induction l as [|p l IH]; intros H.
  - split; reflexivity.
  - destruct IH as [IHm IHh].
    { intros q Hq. apply H, list_elem_of_further, Hq. }
    pose proof (H p (list_elem_of_here _ _)) as Hp.
    rewrite filter_cons_False by congruence.
    rewrite filter_cons_True by exact Hp.
    cbn [length]. rewrite IHm, IHh. split; reflexivity.
Qed.

(** ** The orchestrator *)

Lemma StronglySorted_lookup_lt {A} (R : A -> A -> Prop) l i j a b :
  StronglySorted R l -> (i < j)%nat ->
  l !! i = Some a -> l !! j = Some b -> R a b.
Proof.
  intros Hs. revert i j. induction Hs as [|x l Hl IH Hx]; intros i j Hij.
  - rewrite lookup_nil. discriminate.
  - destruct j as [|j]; [ lia | ]. destruct i as [|i]; cbn.
    + intros [= ->] Hb. rewrite Forall_forall in Hx.
      apply Hx. eapply list_elem_of_lookup_2, Hb.
    + apply IH. lia.
Qed.

Lemma null_date_key_is_least a b :
  key_lt (sort_key a) (sort_key b) = false ->
  ev_date a = None ->
  ev_date b = None \/ ev_date b = Some [].
Proof.
  unfold key_lt, sort_key. cbn [fst snd]. intros H Ha.
  rewrite Ha in H. cbn in H.
  destruct (ev_date b) as [[|c t]|]; [ auto | discriminate H | auto ].
Qed.

(** C8. The list a run returns is the list it writes, and it is sorted
    descending by the pair (date or empty, division or empty) compared as
    tuples: of two records the earlier never has the smaller key. A
    record with a null date is followed only by records whose date is
    null or empty. *)
Theorem output_sorted_descending (env : environment) (fs : gmap pystr file)
    (base_url output_file game : pystr) (format : option pystr)
    (o : outcome) :
  scrape_labs_events env fs base_url output_file game format = Ok o ->
  files o !! output_file = Some (JsonArray (returned o))
  /\ descending (returned o)
  /\ (forall i j a b,
        (i < j)%nat ->
        returned o !! i = Some a -> returned o !! j = Some b ->
        key_lt (sort_key a) (sort_key b) = false
        /\ key_compare (sort_key a) (sort_key b) <> Lt)
  /\ (forall i j a b,
        (i < j)%nat ->
        returned o !! i = Some a -> returned o !! j = Some b ->
        ev_date a = None ->
        ev_date b = None \/ ev_date b = Some []).
Proof.
  intros Hrun.
  destruct (scrape_Ok_listing _ _ _ _ _ _ _ Hrun)
    as (html & ids & names & dates & Hfetch & Hlist).
  rewrite (scrape_with_listing env fs base_url output_file game format
             html ids names dates Hfetch Hlist) in Hrun.
  injection Hrun as <-. cbn [returned files].
  pose proof (sort_reverse_descending
    (map (record_for env (load_existing_events fs output_file)
            (with_trailing_slash base_url) game format)
         (pairs (zip3 ids names dates)))) as Hsorted.
  assert (Hpair : forall i j a b,
    (i < j)%nat ->
    sort_reverse
      (map (record_for env (load_existing_events fs output_file)
              (with_trailing_slash base_url) game format)
           (pairs (zip3 ids names dates))) !! i = Some a ->
    sort_reverse
      (map (record_for env (load_existing_events fs output_file)
              (with_trailing_slash base_url) game format)
           (pairs (zip3 ids names dates))) !! j = Some b ->
    key_lt (sort_key a) (sort_key b) = false).
  { intros i j a b Hij Ha Hb.
    exact (StronglySorted_lookup_lt _ _ i j a b Hsorted Hij Ha Hb). }
  split; [ apply lookup_insert_eq | ].
  split; [ exact Hsorted | ]. split.
  - intros i j a b Hij Ha Hb.
    pose proof (Hpair i j a b Hij Ha Hb) as Hlt.
    split; [ exact Hlt | ].
    intros Hc. apply key_lt_compare in Hc. congruence.
  - intros i j a b Hij Ha Hb.
    apply null_date_key_is_least. eapply Hpair; eassumption.
Qed.

Lemma output_sorted_descending_witness :
  exists o,
    example_run two_tournaments ∅ = Ok o
    /\ files o !! lit "labs_events.json" = Some (JsonArray (returned o))
    /\ descending (returned o).
Proof.
  destruct (example_run two_tournaments ∅) as [o|e] eqn:Hrun.
  - exists o. split; [ reflexivity | ].
    destruct (output_sorted_descending _ _ _ _ _ _ o Hrun)
      as (Hfile & Hsorted & _).
    split; [ exact Hfile | exact Hsorted ].
  - vm_compute in Hrun. discriminate Hrun.
Defined.

(** The records of a run carry the composite ids of its pairs. *)
Lemma returned_ids env fs base_url output_file game format
    (l : list ((pystr * pystr * option pystr) * pystr)) :
  map ev_id
    (map (record_for env (load_existing_events fs output_file)
            base_url game format) l)
  = map (fun p => Some (pair_id p)) l.
Proof.
  rewrite map_map. apply map_ext. intros p.
  apply record_for_id. intros k e. apply load_lookup.
Qed.

(** C9 (as amended). When the tournament ids of the listing are pairwise
    distinct, the run returns, every record it returns has an id, and no
    two records share one. *)
Theorem composite_ids_unique (env : environment) (fs : gmap pystr file)
    (base_url output_file game : pystr) (format : option pystr)
    (html : pystr) (ids names : list pystr) (dates : list (option pystr)) :
  fetch_html env (with_trailing_slash base_url) = Ok html ->
  extract_labs_list_items env html = Ok (ids, names, dates) ->
  NoDup ids ->
  exists o,
    scrape_labs_events env fs base_url output_file game format = Ok o
    /\ NoDup (map ev_id (returned o))
    /\ Forall (fun e => exists p,
                 p ∈ pairs (zip3 ids names dates)
                 /\ ev_id e = Some (pair_id p))
         (returned o).
Proof.
  intros Hfetch Hlist Hnd.
  eexists. split; [ apply (scrape_with_listing _ _ _ _ _ _ _ _ _ _
                             Hfetch Hlist) | ].
  cbn [returned].
  set (E := map (record_for env (load_existing_events fs output_file)
                   (with_trailing_slash base_url) game format)
              (pairs (zip3 ids names dates))).
  split.
  - rewrite map_fmap, (sort_reverse_Permutation E), <- map_fmap.
    unfold E. rewrite returned_ids.
    rewrite <- (map_map pair_id Some), (map_fmap Some).
    apply (NoDup_fmap_2 Some), listing_pair_ids_NoDup, Hnd.
  - apply Forall_forall. intros e He.
    rewrite (sort_reverse_Permutation E) in He.
    apply elem_of_map in He as (p & -> & Hp).
    exists p. split; [ exact Hp | ].
    apply record_for_id. intros k e. apply load_lookup.
Qed.

Lemma composite_ids_unique_witness :
  exists o,
    example_run two_tournaments ∅ = Ok o
    /\ NoDup (map ev_id (returned o))
    /\ Forall (fun e => exists p,
                 p ∈ pairs (zip3 [lit "0042"; lit "0043"]
                              [lit "Spring Cup"; lit "Autumn Cup"]
                              [Some (lit "2025-05-03");
                               Some (lit "2025-10-11")])
                 /\ ev_id e = Some (pair_id p))
         (returned o).
Proof.
  apply (composite_ids_unique (example_env two_tournaments) ∅
           (lit "https://labs.example") (lit "labs_events.json")
           (lit "PTCG") None (lit "128 players")).
  - vm_compute. reflexivity.
  - vm_compute. reflexivity.
  - apply (bool_decide_unpack _). vm_compute. reflexivity.
Defined.

(** C9 (as stated) fails: a listing that shows one tournament twice gives
    records that share their id. *)
Lemma repeated_listing_repeats_ids :
  exists o,
    example_run listed_twice ∅ = Ok o
    /\ ~ NoDup (map ev_id (returned o)).
Proof.
  destruct (example_run listed_twice ∅) as [o|e] eqn:Hrun.
  - exists o. split; [ reflexivity | ].
    vm_compute in Hrun. injection Hrun as <-. cbn [returned map ev_id].
    apply (bool_decide_unpack _). vm_compute. reflexivity.
  - vm_compute in Hrun. discriminate Hrun.
Qed.

(** C1 (as amended). Two runs with the same arguments against unchanged
    pages: the second run fetches no count, every pair of the listing
    being found in the snapshot the first run wrote; every record it
    returns is a record of that snapshot, as a run copies the stored
    record of a pair it finds; and when the tournament ids of the listing
    are pairwise distinct it returns the same list and leaves the same
    file. *)
Theorem second_run_reuses_snapshot (env : environment)
    (fs : gmap pystr file) (base_url output_file game : pystr)
    (format : option pystr) (html : pystr) (ids names : list pystr)
    (dates : list (option pystr)) :
  fetch_html env (with_trailing_slash base_url) = Ok html ->
  extract_labs_list_items env html = Ok (ids, names, dates) ->
  exists o1 o2,
    scrape_labs_events env fs base_url output_file game format = Ok o1
    /\ scrape_labs_events env (files o1) base_url output_file game format
       = Ok o2
    /\ summary_fetched o2 = 0%nat
    /\ summary_cached o2 = length (pairs (zip3 ids names dates))
    /\ (forall p e,
          p ∈ pairs (zip3 ids names dates) ->
          load_existing_events fs output_file !! pair_id p = Some e ->
          e ∈ returned o1)
    /\ (forall e, e ∈ returned o2 -> e ∈ returned o1)
    /\ (NoDup ids -> returned o2 = returned o1 /\ files o2 = files o1).
Proof.
  intros Hfetch Hlist.
  set (b := with_trailing_slash base_url).
  set (ps := pairs (zip3 ids names dates)).
  set (ex1 := load_existing_events fs output_file).
  set (E1 := map (record_for env ex1 b game format) ps).
  set (ex2 := by_id (sort_reverse E1)).
  assert (Hid1 : forall p,
            ev_id (record_for env ex1 b game format p) = Some (pair_id p)).
  { intros p. apply record_for_id. intros k e. apply load_lookup. }
  assert (Hin1 : forall p, p ∈ ps ->
            record_for env ex1 b game format p ∈ sort_reverse E1).
  { intros p Hp. rewrite (sort_reverse_Permutation E1).
    apply elem_of_map. eauto. }
  assert (Hhit : forall p, p ∈ ps -> hit ex2 p = true).
  { intros p Hp. unfold hit.
    destruct (by_id_lookup_is_Some (sort_reverse E1) (pair_id p)
                (record_for env ex1 b game format p) (Hin1 p Hp) (Hid1 p))
      as [c Hc].
    fold ex2 in Hc. rewrite Hc. reflexivity. }
  destruct (all_hits ex2 ps Hhit) as [Hmiss Hhits].
  eexists. eexists.
  split; [ apply (scrape_with_listing _ _ _ _ _ _ _ _ _ _ Hfetch Hlist) | ].
  cbn [files returned].
  split; [ apply (scrape_with_listing _ _ _ _ _ _ _ _ _ _ Hfetch Hlist) | ].
  cbn [files returned summary_fetched summary_cached].
  rewrite load_after_write.
  fold b ps ex1. fold E1. fold ex2.
  split; [ exact Hmiss | ]. split; [ exact Hhits | ]. split; [ | split ].
  - intros p e Hp He. specialize (Hin1 p Hp).
    unfold record_for in Hin1. rewrite He in Hin1. exact Hin1.
  - intros e He.
    rewrite (sort_reverse_Permutation
               (map (record_for env ex2 b game format) ps)) in He.
    apply elem_of_map in He as (p & -> & Hp).
    specialize (Hhit p Hp). unfold hit in Hhit. unfold record_for.
    destruct (ex2 !! pair_id p) as [c|] eqn:Hc; [ | discriminate Hhit ].
    apply by_id_lookup in Hc as [Hc _]. exact Hc.
  - intros Hnd.
    assert (Hsame : map (record_for env ex2 b game format) ps = E1).
    { unfold E1. apply map_ext_in. intros p Hp.
      apply list_elem_of_In in Hp.
      unfold record_for at 1.
      assert (ex2 !! pair_id p = Some (record_for env ex1 b game format p))
        as ->; [ | reflexivity ].
      apply (by_id_Permutation E1 (sort_reverse E1)).
      - symmetry. apply sort_reverse_Permutation.
      - apply elem_of_map. eauto.
      - apply Hid1.
      - intros e' He' Hid'.
        apply elem_of_map in He' as (p' & -> & Hp').
        rewrite Hid1 in Hid'. injection Hid' as Hid'.
        f_equal.
        eapply (NoDup_map_inj_on pair_id ps);
          [ apply listing_pair_ids_NoDup, Hnd | exact Hp' | exact Hp
          | exact Hid' ]. }
    rewrite Hsame. split; [ reflexivity | apply insert_insert_eq ].
Qed.

Lemma second_run_reuses_snapshot_witness :
  exists o1 o2,
    example_run two_tournaments ∅ = Ok o1
    /\ example_run two_tournaments (files o1) = Ok o2
    /\ summary_fetched o2 = 0%nat
    /\ summary_cached o2 = 6%nat
    /\ returned o2 = returned o1
    /\ files o2 = files o1.
Proof.
  destruct (second_run_reuses_snapshot (example_env two_tournaments) ∅
              (lit "https://labs.example") (lit "labs_events.json")
              (lit "PTCG") None (lit "128 players")
              [lit "0042"; lit "0043"]
              [lit "Spring Cup"; lit "Autumn Cup"]
              [Some (lit "2025-05-03"); Some (lit "2025-10-11")])
    as (o1 & o2 & H1 & H2 & Hf & Hc & _ & _ & Hsame).
  - vm_compute. reflexivity.
  - vm_compute. reflexivity.
  - exists o1, o2. destruct Hsame as [Hr Hfiles].
    + apply (bool_decide_unpack _). vm_compute. reflexivity.
    + repeat split; assumption.
Defined.

(** C1 (as stated) fails: when the listing shows one tournament twice,
    under two names, the second run finds every pair in the snapshot and
    yet returns another list and leaves another file. *)
Lemma repeated_listing_changes_snapshot :
  exists o1 o2,
    example_run listed_twice ∅ = Ok o1
    /\ example_run listed_twice (files o1) = Ok o2
    /\ returned o2 <> returned o1
    /\ files o2 <> files o1.
Proof.
  destruct (example_run listed_twice ∅) as [o1|e] eqn:E1;
    [ | vm_compute in E1; discriminate E1 ].
  destruct (example_run listed_twice (files o1)) as [o2|e] eqn:E2.
  - exists o1, o2. split; [ reflexivity | ]. split; [ exact E2 | ].
    vm_compute in E1. injection E1 as <-.
    vm_compute in E2. injection E2 as <-.
    split.
    + cbn [returned]. intros E. discriminate E.
    + intros E.
      apply (f_equal (fun m => m !! lit "labs_events.json")) in E.
      vm_compute in E. discriminate E.
  - vm_compute in E1. injection E1 as <-.
    vm_compute in E2. discriminate E2.
Qed.

End LabEventsFacts.

(** * Further properties of the result-rate helpers *)

Module ResultRateMore.

Import PrimFloat.
Import PyNum ResultRate ResultRateFacts.

Lemma float_of_small_int :
  float_of_int 2 = Ok 2%float /\ float_of_int 3 = Ok 3%float
  /\ float_of_int 100 = Ok 100%float.
Proof. repeat split; vm_compute; reflexivity. Qed.

(** X1. The label helper returns [None] exactly for the keys outside the
    table. For a key of the table the short label is the formula of an
    entry, the full label is the name of that entry, a colon and the
    formula, and both are rendered with MathJax and the class [m-0]. *)
Theorem label_of_known_strategy (c : RESULT_RATE_STRATEGY) (k : pystr) :
  (forall formula_only,
     create_result_rate_label c k formula_only = None
     <-> k ∉ strategy_keys c)
  /\ (k ∈ strategy_keys c ->
      exists d,
        d ∈ (_RESULT_RATES c).*2
        /\ create_result_rate_label c k true
           = Some {| children := FORMULA d; className := lit "m-0";
                     mathjax := true |}
        /\ create_result_rate_label c k false
           = Some {| children := LABEL d ++ lit ": " ++ FORMULA d;
                     className := lit "m-0"; mathjax := true |}).
Proof.
  assert (Hknown : k ∈ strategy_keys c ->
            exists d,
              d ∈ (_RESULT_RATES c).*2
              /\ create_result_rate_label c k true
                 = Some {| children := FORMULA d; className := lit "m-0";
                           mathjax := true |}
              /\ create_result_rate_label c k false
                 = Some {| children := LABEL d ++ lit ": " ++ FORMULA d;
                           className := lit "m-0"; mathjax := true |}).
  { intros Hk. destruct (details_known c k Hk) as (d & Hd & Hin).
    exists d. unfold create_result_rate_label. rewrite Hd. auto. }
  split; [ | exact Hknown ].
  intros formula_only. split.
  - intros Hnone Hk. destruct (Hknown Hk) as (d & _ & Ht & Hf).
    destruct formula_only; congruence.
  - intros Hk. unfold create_result_rate_label.
    rewrite (details_unknown c k Hk). reflexivity.
Qed.

Lemma label_of_known_strategy_witness :
  exists d,
    d ∈ (_RESULT_RATES example_keys).*2
    /\ create_result_rate_label example_keys (lit "ties_count_as_wins") true
       = Some {| children := FORMULA d; className := lit "m-0";
                 mathjax := true |}
    /\ create_result_rate_label example_keys (lit "ties_count_as_wins") false
       = Some {| children := LABEL d ++ lit ": " ++ FORMULA d;
                 className := lit "m-0"; mathjax := true |}.
Proof.
  apply (label_of_known_strategy example_keys (lit "ties_count_as_wins")).
  apply (bool_decide_unpack _). vm_compute. reflexivity.
Defined.

(** ** The keys of a dictionary *)

Lemma elem_of_dict_keys seen l k :
  k ∈ dict_keys seen l <-> k ∈ l /\ k ∉ seen.
Proof.
  revert seen. induction l as [|x l IH]; intros seen; cbn.
  - rewrite !elem_of_nil. tauto.
  - case_bool_decide as Hx.
    + rewrite IH, elem_of_cons. split.
      * intros [H1 H2]. auto.
      * intros [[-> | H1] H2]; [ contradiction | auto ].
    + rewrite !elem_of_cons, IH, not_elem_of_cons. split.
      * intros [-> | [H1 [H2 H3]]]; auto.
      * intros [[-> | H1] H2]; [ auto | ].
        destruct (decide (k = x)) as [-> | Hne]; auto.
Qed.

Lemma dict_keys_NoDup seen l : NoDup (dict_keys seen l).
Proof.
  revert seen. induction l as [|x l IH]; intros seen; cbn.
  - constructor.
  - case_bool_decide; [ apply IH | ].
    apply NoDup_cons. split; [ | apply IH ].
    rewrite elem_of_dict_keys, not_elem_of_cons. tauto.
Qed.

Lemma dict_keys_distinct seen l :
  NoDup l -> (forall k, k ∈ l -> k ∉ seen) -> dict_keys seen l = l.
Proof.
  revert seen. induction l as [|x l IH]; intros seen Hnd Hseen; cbn.
  - reflexivity.
  - apply NoDup_cons in Hnd as [Hx Hnd].
    rewrite bool_decide_eq_false_2
      by (apply Hseen, list_elem_of_here).
    f_equal. apply IH; [ exact Hnd | ].
    intros k Hk. apply not_elem_of_cons. split.
    + intros ->. contradiction.
    + apply Hseen, list_elem_of_further, Hk.
Qed.

(** X2. The selector offers every key of the table once, each with a
    label; the value it selects when the caller gives none is
    [IGNORE_TIES], which is one of the options; it cannot be cleared; and
    when the five keys are pairwise distinct the options are the five keys
    in the order of the table. *)
Theorem selector_options (c : RESULT_RATE_STRATEGY) (id : pystr)
    (value : option pystr) :
  let selector := create_result_rate_selector c id value in
  let offered := map option_value (dropdown_options selector) in
  (forall k, k ∈ offered <-> k ∈ strategy_keys c)
  /\ NoDup offered
  /\ Forall (fun o => is_Some (option_label o)) (dropdown_options selector)
  /\ dropdown_value (create_result_rate_selector c id None) = IGNORE_TIES c
  /\ IGNORE_TIES c ∈ offered
  /\ clearable selector = false
  /\ dropdown_id selector = id
  /\ (NoDup (strategy_keys c) -> offered = strategy_keys c).
Proof.
  cbv zeta. unfold create_result_rate_selector.
  cbn [dropdown_options dropdown_value clearable dropdown_id].
  rewrite map_map. cbn [option_value]. rewrite map_id.
  change (map fst (_RESULT_RATES c)) with (strategy_keys c).
  assert (Hiff : forall k,
            k ∈ dict_keys [] (strategy_keys c) <-> k ∈ strategy_keys c).
  { intros k. rewrite elem_of_dict_keys, elem_of_nil. tauto. }
  repeat split.
  - apply Hiff.
  - apply Hiff.
  - apply dict_keys_NoDup.
  - apply Forall_forall. intros o Ho.
    apply list_elem_of_In, in_map_iff in Ho as (k & <- & Hk).
    apply list_elem_of_In, Hiff in Hk. cbn [option_label].
    destruct (details_known c k Hk) as (d & Hd & _).
    unfold create_result_rate_label. rewrite Hd. eauto.
  - apply Hiff. apply list_elem_of_here.
  - intros Hnd. apply dict_keys_distinct; [ exact Hnd | ].
    intros k _. apply not_elem_of_nil.
Qed.

Lemma selector_options_witness :
  map option_value
    (dropdown_options
       (create_result_rate_selector example_keys (lit "rate") None))
  = strategy_keys example_keys.
Proof.
  apply (selector_options example_keys (lit "rate") None).
  apply example_keys_distinct.
Defined.

(** X3. With a key of the table and three floats, whatever they are
    (zero, negative, infinite, not a number), the calculation returns: it
    raises nothing, and gives a float or the integer 0 of an empty
    denominator. *)
Theorem float_arguments_always_return (c : RESULT_RATE_STRATEGY)
    (k : pystr) (w l t : float) (percentage : bool) :
  k ∈ strategy_keys c ->
  exists r,
    calculate_result_rate c k (PyFloat w) (PyFloat l) (PyFloat t) percentage
    = Ok r
    /\ (r = PyInt 0 \/ exists f, r = PyFloat f).
Proof.
  intros Hk. destruct (details_known c k Hk) as (d & Hd & Hin).
  rewrite (calculate_known c k d _ _ _ _ Hd).
  destruct float_of_small_int as (H2 & H3 & H100).
  assert (Hrate : forall n den : float,
    exists r,
      (rate ← (if is_zero (PyFloat den) then Ok (PyInt 0)
               else truediv (PyFloat n) (PyFloat den));
       if percentage then (x ← mul rate (PyInt 100); Ok (round1 x))
       else Ok rate) = Ok r
      /\ (r = PyInt 0 \/ exists f, r = PyFloat f)).
  { intros n den. cbn [is_zero truediv to_float mbind result_bind].
    destruct (den =? zero)%float.
    - destruct percentage; cbn; eauto.
    - destruct percentage; cbn; [ | eauto ].
      unfold mul. cbn [to_float]. rewrite H100. cbn. eauto. }
  revert Hin. cbn. rewrite !elem_of_cons, elem_of_nil.
  intros [-> | [-> | [-> | [-> | [-> | []]]]]];
    cbn [CALCULATE add truediv to_float mbind result_bind];
    rewrite ?H2, ?H3; cbn [mbind result_bind Z.eqb];
    apply Hrate.
Qed.

Lemma float_arguments_always_return_witness :
  exists r,
    calculate_result_rate example_keys (lit "ties_count_as_half_win")
      (PyFloat 3%float) (PyFloat infinity) (PyFloat nan) true = Ok r
    /\ (r = PyInt 0 \/ exists f, r = PyFloat f).
Proof.
  apply (float_arguments_always_return example_keys
           (lit "ties_count_as_half_win")).
  apply (bool_decide_unpack _). vm_compute. reflexivity.
Defined.

End ResultRateMore.

(** * Further properties of the Labs event scraper *)

Module LabEventsMore.

Import LabEvents LabEventsFacts.

(** ** The segments of an [href] *)

Lemma split_not_nil sep s : split sep s <> [].
Proof.
  destruct s as [|c s]; cbn; [ discriminate | ].
  destruct (c =? sep)%N; [ discriminate | ].
  destruct (split sep s); discriminate.
Qed.

Lemma split_no_separator sep s : sep ∉ s -> split sep s = [s].
Proof.
  induction s as [|c s IH]; intros Hs; cbn.
  - reflexivity.
  - apply not_elem_of_cons in Hs as [Hc Hs].
    destruct (c =? sep)%N eqn:E; [ apply N.eqb_eq in E; congruence | ].
    rewrite (IH Hs). reflexivity.
Qed.

Lemma split_at_separator sep a b :
  sep ∉ a -> split sep (a ++ sep :: b) = a :: split sep b.
Proof.
  induction a as [|c a IH]; intros Ha; cbn.
  - rewrite N.eqb_refl. reflexivity.
  - apply not_elem_of_cons in Ha as [Hc Ha].
    destruct (c =? sep)%N eqn:E; [ apply N.eqb_eq in E; congruence | ].
    rewrite (IH Ha). reflexivity.
Qed.

Lemma split_one_segment sep s :
  (length (split sep s) < 2)%nat -> sep ∉ s.
Proof.
  induction s as [|c s IH]; cbn.
  - intros _. apply not_elem_of_nil.
  - destruct (c =? sep)%N eqn:E.
    + cbn [length]. pose proof (split_not_nil sep s) as Hne.
      destruct (split sep s); [ congruence | cbn; lia ].
    + apply N.eqb_neq in E. intros Hlen. apply not_elem_of_cons.
      split; [ congruence | ]. apply IH.
      destruct (split sep s); cbn in *; lia.
Qed.

(** X4. An [href] without a slash has one segment, and the item is
    skipped; otherwise the tournament id is the text between the first
    slash and the next one, or the end of the [href]: the id of
    [/0042/standings] is [0042]. *)
Theorem tournament_id_is_second_segment (href : pystr) :
  ((length (split SLASH href) < 2)%nat <-> SLASH ∉ href)
  /\ (forall a b,
        href = a ++ SLASH :: b -> SLASH ∉ a -> SLASH ∉ b ->
        nth 1 (split SLASH href) [] = b)
  /\ (forall a b rest,
        href = a ++ SLASH :: b ++ SLASH :: rest -> SLASH ∉ a -> SLASH ∉ b ->
        nth 1 (split SLASH href) [] = b).
Proof.
  split; [ split | split ].
  - apply split_one_segment.
  - intros H. rewrite (split_no_separator _ _ H). cbn. lia.
  - intros a b -> Ha Hb.
    rewrite (split_at_separator _ _ _ Ha), (split_no_separator _ _ Hb).
    reflexivity.
  - intros a b rest -> Ha Hb.
    rewrite (split_at_separator _ _ _ Ha), (split_at_separator _ _ _ Hb).
    reflexivity.
Qed.

Lemma tournament_id_is_second_segment_witness :
  nth 1 (split SLASH (lit "/0042/standings")) [] = lit "0042".
Proof.
  destruct (tournament_id_is_second_segment (lit "/0042/standings"))
    as (_ & _ & H).
  apply (H [] (lit "0042") (lit "standings")).
  - reflexivity.
  - apply not_elem_of_nil.
  - apply (bool_decide_unpack _). vm_compute. reflexivity.
Defined.

(** ** The listing in document order *)

Lemma visit_li_kept env ids names dates li :
  visit_li env (ids, names, dates) li
  = if qualifies li
    then Ok (ids ++ [kept_id li], names ++ [kept_name li],
             dates ++ [kept_date env li])
    else Ok (ids, names, dates).
Proof.
  unfold visit_li, qualifies, kept_id, kept_name, kept_date, date_text.
  destruct (find_child "a" li) as [a|]; [ | reflexivity ].
  destruct (href_of a) as [href|]; [ | reflexivity ].
  destruct (Nat.ltb _ _); [ reflexivity | ]. cbn [negb].
  destruct (inner_texts a) as [text1 text2]. cbn [fst snd].
  destruct text2 as [[|c t]|]; [ reflexivity | | reflexivity ].
  destruct (parse_date_total env (c :: t)) as [date ->]. reflexivity.
Qed.

Lemma for_each_li_kept env lis ids names dates :
  let kept := filter (fun li => qualifies li = true) lis in
  for_each_li env lis (ids, names, dates)
  = Ok (ids ++ map kept_id kept, names ++ map kept_name kept,
        dates ++ map (kept_date env) kept).
Proof.
  cbv zeta. revert ids names dates.
  induction lis as [|li lis IH]; intros ids names dates; cbn [for_each_li].
  - cbn. rewrite !app_nil_r. reflexivity.
  - rewrite visit_li_kept. destruct (qualifies li) eqn:Hq.
    + rewrite filter_cons_True by exact Hq.
      cbn [mbind result_bind map]. rewrite IH, <- !app_assoc. reflexivity.
    + rewrite filter_cons_False by congruence.
      cbn [mbind result_bind]. apply IH.
Qed.

(** X5. When the page has the container, the parser returns, for the
    items it keeps and in document order, their tournament ids, their
    names and their dates; the items without an anchor, without an [href]
    or with an [href] of one segment leave no trace. The three lists have
    one length, so that [zip] drops nothing. *)
Theorem listing_in_document_order (env : environment) (page_html : pystr)
    (ul : node) :
  select_one (BeautifulSoup env page_html) = Some ul ->
  let kept := filter (fun li => qualifies li = true) (find_all "li" ul) in
  extract_labs_list_items env page_html
  = Ok (map kept_id kept, map kept_name kept, map (kept_date env) kept)
  /\ (forall ids names dates,
        extract_labs_list_items env page_html = Ok (ids, names, dates) ->
        length ids = length kept /\ length names = length kept
        /\ length dates = length kept
        /\ length (zip3 ids names dates) = length kept).
Proof.
  intros Hul kept.
  assert (H : extract_labs_list_items env page_html
              = Ok (map kept_id kept, map kept_name kept,
                    map (kept_date env) kept)).
  { unfold extract_labs_list_items. rewrite Hul.
    apply (for_each_li_kept env (find_all "li" ul) [] [] []). }
  split; [ exact H | ].
  intros ids names dates H'. rewrite H in H'. injection H' as <- <- <-.
  rewrite !length_map. repeat split.
  clear. induction kept as [|li kept IH]; cbn; [ reflexivity | ].
  rewrite IH. reflexivity.
Qed.

Lemma listing_in_document_order_witness :
  extract_labs_list_items (example_env two_tournaments) []
  = Ok ([lit "0042"; lit "0043"], [lit "Spring Cup"; lit "Autumn Cup"],
        [Some (lit "2025-05-03"); Some (lit "2025-10-11")]).
Proof.
  destruct (listing_in_document_order (example_env two_tournaments) []
              (Tag (lit "ul") [ (lit "class", lit "grid gap-4") ]
                 [ example_item (lit "/0042/standings") (lit "Spring Cup")
                     (with_dash "May 3" "4, 2025");
                   example_item (lit "/0043/standings") (lit "Autumn Cup")
                     (with_dash "October 11" "12, 2025") ]))
    as [H _].
  - reflexivity.
  - rewrite H. vm_compute. reflexivity.
Defined.

(** ** Names *)

Lemma rev_is_reverse {A} (l : list A) : rev l = reverse l.
Proof. unfold reverse. apply rev_alt. Qed.

Lemma lstrip_head s :
  match lstrip s with
  | c :: _ => isspace c = false
  | [] => True
  end.
Proof.
  induction s as [|c s IH]; cbn; [ exact I | ].
  destruct (isspace c) eqn:Hc; [ exact IH | exact Hc ].
Qed.

Lemma lstrip_last s c :
  last s = Some c -> isspace c = false -> last (lstrip s) = Some c.
Proof.
  induction s as [|x s IH]; cbn [lstrip]; [ discriminate | ].
  intros Hlast Hc. destruct (isspace x) eqn:Hx; [ | exact Hlast ].
  apply IH; [ | exact Hc ].
  rewrite last_cons in Hlast. destruct (last s) as [y|]; [ exact Hlast | ].
  congruence.
Qed.

Lemma strip_trimmed s : trimmed (strip s).
Proof.
  unfold strip, trimmed. rewrite !rev_is_reverse, last_reverse.
  pose proof (lstrip_head s) as Hhead.
  destruct (lstrip s) as [|h x] eqn:Hx.
  - cbn. auto.
  - assert (Hlast : last (lstrip (reverse (h :: x))) = Some h).
    { apply lstrip_last; [ | exact Hhead ].
      rewrite last_reverse. reflexivity. }
    pose proof (lstrip_head (reverse (h :: x))) as Hhead'.
    destruct (lstrip (reverse (h :: x))) as [|c r] eqn:Hr;
      [ discriminate Hlast | ].
    cbn [head]. split; [ | exact Hhead' ].
    destruct (reverse (c :: r)) as [|c' r'] eqn:Hrev; [ exact I | ].
    assert (head (reverse (c :: r)) = Some h) as Hh
      by (rewrite head_reverse; exact Hlast).
    rewrite Hrev in Hh. injection Hh as ->. exact Hhead.
Qed.

Lemma concat_trimmed (pieces : list pystr) :
  Forall (fun t => t <> [] /\ trimmed t) pieces -> trimmed (concat pieces).
Proof.
  induction 1 as [|t pieces [Hne [Hh Hl]] _ [IHh IHl]]; cbn [concat].
  - split; exact I.
  - split.
    + destruct t as [|c t]; [ congruence | exact Hh ].
    + rewrite last_app. destruct (last (concat pieces)); [ exact IHl | ].
      exact Hl.
Qed.

Lemma get_text_trimmed tag : trimmed (get_text tag).
Proof.
  unfold get_text. apply concat_trimmed, Forall_forall.
  intros t Ht. apply list_elem_of_filter in Ht as [Hne Ht].
  split; [ exact Hne | ].
  apply elem_of_map in Ht as (x & -> & _). apply strip_trimmed.
Qed.

Lemma kept_name_trimmed li : kept_name li <> [] /\ trimmed (kept_name li).
Proof.
  assert (Hdefault : lit "Unknown Event" <> []
                     /\ trimmed (lit "Unknown Event")).
  { split; [ discriminate | split; reflexivity ]. }
  unfold kept_name.
  destruct (find_child "a" li) as [a|]; [ | exact Hdefault ].
  unfold inner_texts.
  destruct (find_all "div" a) as [|first_div ?]; [ exact Hdefault | ].
  destruct (find_all "div" first_div) as [|div1 [|div2 ?]];
    [ exact Hdefault | exact Hdefault | ].
  cbn [fst]. pose proof (get_text_trimmed div1) as Ht.
  destruct (get_text div1) as [|c t]; [ exact Hdefault | ].
  split; [ discriminate | exact Ht ].
Qed.

(** X6. Every name of a listing is a text that is not empty and neither
    starts nor ends with whitespace: the stripped text of the item, or
    the placeholder [Unknown Event]. *)
Theorem listing_names_are_trimmed (env : environment) (page_html : pystr)
    (ids names : list pystr) (dates : list (option pystr)) :
  extract_labs_list_items env page_html = Ok (ids, names, dates) ->
  Forall (fun name => name <> [] /\ trimmed name) names.
Proof.
  unfold extract_labs_list_items.
  destruct (select_one (BeautifulSoup env page_html)) as [ul|];
    [ | discriminate ].
  rewrite (for_each_li_kept env (find_all "li" ul) [] [] []).
  intros [= _ <- _]. cbn [app]. apply Forall_forall.
  intros name Hname. apply elem_of_map in Hname as (li & -> & _).
  apply kept_name_trimmed.
Qed.

Lemma listing_names_are_trimmed_witness :
  Forall (fun name => name <> [] /\ trimmed name)
    [lit "Spring Cup"; lit "Autumn Cup"].
Proof.
  apply (listing_names_are_trimmed (example_env two_tournaments) []
           [lit "0042"; lit "0043"] [lit "Spring Cup"; lit "Autumn Cup"]
           [Some (lit "2025-05-03"); Some (lit "2025-10-11")]).
  vm_compute. reflexivity.
Defined.

(** ** Dates *)




Lemma str_compare_refl a : str_compare a a = Eq.
Proof.
  induction a as [|x a IH]; cbn; [ reflexivity | ].
  rewrite N.compare_refl. exact IH.
Qed.









(** ** The player count *)

Lemma digits_plus_stops {A} ud (k : pystr -> pystr -> option A) seen s :
  match s with
  | c :: _ => isdecimal ud c = false
  | [] => True
  end ->
  digits_plus ud k seen s = None.
Proof.
  destruct s as [|c s]; cbn; [ reflexivity | ]. intros ->. reflexivity.
Qed.

Lemma digits_plus_run {A} ud (k : pystr -> pystr -> option A) seen ds rest r :
  ds <> [] ->
  Forall (fun c => isdecimal ud c = true) ds ->
  match rest with
  | c :: _ => isdecimal ud c = false
  | [] => True
  end ->
  k (seen ++ ds) rest = Some r ->
  digits_plus ud k seen (ds ++ rest) = Some r.
Proof.
  intros Hne Hds Hrest. revert seen Hne.
  induction Hds as [|c ds Hc Hds IH]; intros seen Hne Hk; [ congruence | ].
  cbn. rewrite Hc. destruct ds as [|c' ds].
  - cbn. rewrite (digits_plus_stops ud k (seen ++ [c]) rest Hrest).
    exact Hk.
  - rewrite (IH (seen ++ [c])); [ reflexivity | discriminate | ].
    rewrite <- app_assoc. exact Hk.
Qed.

Lemma ws_plus_run {A} (k : pystr -> option A) ws rest r :
  ws <> [] ->
  Forall (fun c => isspace c = true) ws ->
  match rest with
  | c :: _ => isspace c = false
  | [] => True
  end ->
  k rest = Some r ->
  ws_plus k (ws ++ rest) = Some r.
Proof.
  intros Hne Hws Hrest Hk. revert Hne.
  induction Hws as [|c ws Hc Hws IH]; intros Hne; [ congruence | ].
  cbn. rewrite Hc. destruct ws as [|c' ws].
  - cbn. destruct rest as [|x rest]; cbn; [ exact Hk | ].
    rewrite Hrest. exact Hk.
  - rewrite IH; [ reflexivity | discriminate ].
Qed.

Lemma strip_prefix_same p s : strip_prefix N.eqb p (p ++ s) = Some s.
Proof.
  induction p as [|x p IH]; cbn; [ reflexivity | ].
  rewrite N.eqb_refl. exact IH.
Qed.

Lemma search_players_skips ud prefix s :
  Forall (fun c => isdecimal ud c = false) prefix ->
  search_players ud (prefix ++ s) = search_players ud s.
Proof.
  induction 1 as [|c prefix Hc _ IH]; [ reflexivity | ].
  cbn [app search_players digits_plus]. rewrite Hc. exact IH.
Qed.

(** X9. In a page whose first decimal digits are a number followed by
    whitespace and the word [players], the count is that number: the
    whole run of digits is read, whatever follows the word. *)
Theorem player_count_of_page (env : environment)
    (before digits spaces after : pystr) (n : Z) :
  Forall (fun c => isdecimal (unicode_decimal env) c = false) before ->
  digits <> [] ->
  Forall (fun c => isdecimal (unicode_decimal env) c = true) digits ->
  spaces <> [] ->
  Forall (fun c => isspace c = true) spaces ->
  Forall (fun c => isdecimal (unicode_decimal env) c = false) spaces ->
  int_of (unicode_decimal env) digits = Ok n ->
  extract_player_count env
    (before ++ digits ++ spaces ++ lit "players" ++ after)
  = Ok (Some n).
Proof.
  intros Hbefore Hne Hdigits Hsp Hspaces Hnodigit Hint.
  unfold extract_player_count.
  rewrite (search_players_skips _ _ _ Hbefore).
  assert (Hhere :
    digits_plus (unicode_decimal env)
      (fun ds rest =>
         ws_plus (fun rest =>
           match strip_prefix N.eqb (lit "players") rest with
           | Some _ => Some ds
           | None => None
           end) rest) []
      (digits ++ spaces ++ lit "players" ++ after) = Some digits).
  { apply digits_plus_run; [ exact Hne | exact Hdigits | | ].
    - destruct spaces as [|c spaces]; [ congruence | ].
      apply Forall_cons in Hnodigit as [Hc _]. exact Hc.
    - cbn [app]. apply ws_plus_run; [ exact Hsp | exact Hspaces | | ].
      + reflexivity.
      + rewrite strip_prefix_same. reflexivity. }
  destruct digits as [|c digits]; [ congruence | ].
  cbn [app search_players]. cbn [app] in Hhere. rewrite Hhere.
  rewrite Hint. reflexivity.
Qed.

Lemma player_count_of_page_witness :
  extract_player_count (example_env [])
    (lit "<p>Standings: " ++ lit "2117" ++ lit " " ++ lit "players"
     ++ lit " in 9 rounds</p>")
  = Ok (Some 2117).
Proof.
  apply (player_count_of_page (example_env []) (lit "<p>Standings: ")
           (lit "2117") (lit " ") (lit " in 9 rounds</p>") 2117).
  - apply (bool_decide_unpack _). vm_compute. reflexivity.
  - discriminate.
  - apply (bool_decide_unpack _). vm_compute. reflexivity.
  - discriminate.
  - apply (bool_decide_unpack _). vm_compute. reflexivity.
  - apply (bool_decide_unpack _). vm_compute. reflexivity.
  - vm_compute. reflexivity.
Defined.

Lemma int_of_bounds ud s n :
  int_of ud s = Ok n ->
  0 <= n < 10 ^ Z.of_nat (length (lstrip s))
  /\ (length (lstrip s) <= int_max_str_digits)%nat.
Proof.
  unfold int_of. destruct (Nat.eqb _ _); [ discriminate | ].
  destruct (Nat.ltb_spec int_max_str_digits (length (lstrip s)));
    [ discriminate | ].
  intros Hfold. split; [ | assumption ]. revert Hfold.
  generalize (lstrip s). intros digits.
  assert (Hgen : forall (acc : result Z) m k,
            acc = Ok m -> 0 <= m < 10 ^ Z.of_nat k ->
            foldl (fun acc c =>
                     n ← acc;
                     match decimal_value ud c with
                     | Some d => Ok (10 * n + d)
                     | None =>
                         Raise (ValueError
                                  (lit "invalid literal for int() with base 10"))
                     end) acc digits = Ok n ->
            0 <= n < 10 ^ Z.of_nat (k + length digits)).
  { induction digits as [|c digits IH]; intros acc m k -> Hm; cbn [foldl].
    - intros [= <-]. rewrite Nat.add_0_r. exact Hm.
    - cbn [mbind result_bind].
      destruct (decimal_value ud c) as [d|] eqn:Hd.
      + intros Hfold.
        replace (k + length (c :: digits))%nat
          with (S k + length digits)%nat by (cbn; lia).
        apply (IH (Ok (10 * m + d)) (10 * m + d) (S k) eq_refl);
          [ | exact Hfold ].
        assert (0 <= d <= 9) as Hd9.
        { unfold decimal_value in Hd.
          destruct (_ && _)%N eqn:Hascii.
          - injection Hd as <-.
            apply andb_prop in Hascii as [Hlo Hhi].
            apply N.leb_le in Hlo, Hhi. lia.
          - destruct (c <? 128)%N; [ discriminate | ].
            destruct (ud c) as [d'|]; [ | discriminate ].
            destruct (N.ltb_spec d' 10); [ | discriminate ].
            injection Hd as <-. lia. }
        rewrite Nat2Z.inj_succ, Z.pow_succ_r by lia. lia.
      + intros Hfold. exfalso. clear -Hfold.
        induction digits as [|c' digits IH']; cbn in Hfold;
          [ discriminate | auto ]. }
  intros Hfold. apply (Hgen (Ok 0) 0 0%nat eq_refl); [ cbn; lia | exact Hfold ].
Qed.

(** X10. A player count, when there is one, is never negative: so for
    the count read from a page, for the count of a division, and for the
    count in the record of a pair the snapshot did not hold. *)
Theorem player_count_is_natural (env : environment) :
  (forall html n,
     extract_player_count env html = Ok (Some n) -> 0 <= n)
  /\ (forall base_url tournament_id division n,
        fetch_division_player_count env base_url tournament_id division
        = Some n ->
        0 <= n)
  /\ (forall base_url game format item division n,
        ev_player_count (new_event env base_url game format item division)
        = Some n ->
        0 <= n).
Proof.
  assert (Hcount : forall html n,
            extract_player_count env html = Ok (Some n) -> 0 <= n).
  { intros html n. unfold extract_player_count.
    destruct (search_players _ html) as [digits|]; [ | discriminate ].
    destruct (int_of _ digits) as [m|] eqn:Hint; [ | discriminate ].
    cbn. intros [= <-]. apply int_of_bounds in Hint as [[H0 _] _].
    exact H0. }
  assert (Hfetch : forall base_url tournament_id division n,
            fetch_division_player_count env base_url tournament_id division
            = Some n ->
            0 <= n).
  { intros base_url tournament_id division n.
    unfold fetch_division_player_count.
    destruct (fetch_html env _) as [html|]; cbn; [ | discriminate ].
    destruct (extract_player_count env html) as [count|] eqn:Hc;
      [ | discriminate ].
    intros ->. apply (Hcount html n Hc). }
  split; [ exact Hcount | ]. split; [ exact Hfetch | ].
  intros base_url game format [[tournament_id name] date] division n.
  cbn [new_event ev_player_count]. apply Hfetch.
Qed.

Lemma player_count_is_natural_witness : 0 <= 128.
Proof.
  destruct (player_count_is_natural (example_env [])) as (H & _).
  apply (H (lit "128 players") 128). vm_compute. reflexivity.
Defined.


Lemma search_players_none ud html :
  Forall (fun c => isdecimal ud c = false) html ->
  search_players ud html = None.
Proof.
  intros H. rewrite <- (app_nil_r html).
  rewrite (search_players_skips ud html [] H). reflexivity.
Qed.

(** X11. A pair the snapshot does not hold still gets its record when the
    standings page cannot be fetched, or has no decimal digit: the record
    has the composite id, the name with the division in brackets, the
    date of the listing, the game, the division, no player count, and the
    format only when one that is not empty was given. *)
Theorem record_without_count (env : environment)
    (existing_events : gmap pystr event) (base_url game : pystr)
    (format : option pystr) (tournament_id name : pystr)
    (date : option pystr) (division : pystr) :
  existing_events !! (tournament_id ++ lit "_" ++ division) = None ->
  let url :=
    base_url ++ tournament_id ++ lit "/" ++ division ++ lit "/standings" in
  (session_get env url = None
   \/ exists html,
        session_get env url = Some html
        /\ Forall (fun c => isdecimal (unicode_decimal env) c = false) html) ->
  record_for env existing_events base_url game format
    ((tournament_id, name, date), division)
  = {| ev_id := Some (tournament_id ++ lit "_" ++ division);
       ev_name := name ++ lit " (" ++ division ++ lit ")";
       ev_date := date;
       ev_game := game;
       ev_division := Some division;
       ev_player_count := None;
       ev_format := match format with
                    | Some [] | None => None
                    | Some f => Some f
                    end |}.
Proof.
  intros Hmiss url Hpage.
  unfold record_for, pair_id, composite_id, tournament_of.
  cbn [fst snd].
  destruct (existing_events !! _) as [cached|] eqn:Hlookup;
    [ discriminate Hmiss | ].
  unfold new_event. f_equal.
  unfold fetch_division_player_count, fetch_html. fold url.
  destruct Hpage as [-> | (html & -> & Hnone)]; [ reflexivity | ].
  cbn. unfold extract_player_count.
  rewrite (search_players_none _ _ Hnone). reflexivity.
Qed.

Lemma record_without_count_witness :
  record_for
    {| BeautifulSoup := fun _ => []; unicode_decimal := fun _ => None;
       session_get := fun _ => None |}
    ∅ (lit "https://labs.example/") (lit "PTCG") (Some [])
    ((lit "0042", lit "Spring Cup", None), lit "JR")
  = {| ev_id := Some (lit "0042" ++ lit "_" ++ lit "JR");
       ev_name := lit "Spring Cup" ++ lit " (" ++ lit "JR" ++ lit ")";
       ev_date := None;
       ev_game := lit "PTCG";
       ev_division := Some (lit "JR");
       ev_player_count := None;
       ev_format := None |}.
Proof.
  apply (record_without_count
           {| BeautifulSoup := fun _ => []; unicode_decimal := fun _ => None;
              session_get := fun _ => None |}
           ∅ (lit "https://labs.example/") (lit "PTCG") (Some [])
           (lit "0042") (lit "Spring Cup") None (lit "JR")).
  - apply lookup_empty.
  - left. reflexivity.
Defined.

(** ** The snapshot store *)




(** X13. What is written is read back: when no two records of a list
    share an id, loading the file the list was written to gives every
    record under its id, and nothing under an id the list lacks. *)
Theorem load_after_save (fs : gmap pystr file) (output_file : pystr)
    (saved : list event) :
  NoDup (map ev_id saved) ->
  let loaded :=
    load_existing_events (<[ output_file := JsonArray saved ]> fs)
      output_file in
  (forall e k, e ∈ saved -> ev_id e = Some k -> loaded !! k = Some e)
  /\ (forall k, Some k ∉ map ev_id saved -> loaded !! k = None).
Proof.
  intros Hnd loaded. subst loaded. rewrite load_after_write. split.
  - intros e k He Hk. apply by_id_lookup_unique; [ exact He | exact Hk | ].
    intros e' He' Hk'.
    apply (NoDup_map_inj_on ev_id saved); [ exact Hnd | exact He' | exact He | ].
    congruence.
  - intros k Hk. destruct (by_id saved !! k) as [e|] eqn:He; [ | reflexivity ].
    apply by_id_lookup in He as [He Hid]. exfalso. apply Hk.
    rewrite <- Hid. apply elem_of_map. eauto.
Qed.

Lemma load_after_save_witness :
  let spring :=
    {| ev_id := Some (lit "0042_JR"); ev_name := lit "Spring Cup (JR)";
       ev_date := Some (lit "2025-05-03"); ev_game := lit "PTCG";
       ev_division := Some (lit "JR"); ev_player_count := Some 128;
       ev_format := None |} in
  let autumn :=
    {| ev_id := Some (lit "0043_JR"); ev_name := lit "Autumn Cup (JR)";
       ev_date := None; ev_game := lit "PTCG";
       ev_division := Some (lit "JR"); ev_player_count := None;
       ev_format := None |} in
  load_existing_events
    (<[ lit "labs_events.json" := JsonArray [autumn; spring] ]> ∅)
    (lit "labs_events.json") !! lit "0042_JR"
  = Some spring.
Proof.
  intros spring autumn.
  apply (load_after_save ∅ (lit "labs_events.json") [autumn; spring]).
  - apply (bool_decide_unpack _). vm_compute. reflexivity.
  - apply list_elem_of_further, list_elem_of_here.
  - reflexivity.
Defined.

(** ** Runs *)







Lemma fetched_count_natural env base_url tournament_id division n :
  fetch_division_player_count env base_url tournament_id division = Some n ->
  0 <= n.
Proof.
  unfold fetch_division_player_count.
  destruct (fetch_html env _) as [page|]; cbn [mbind result_bind];
    [ | discriminate ].
  unfold extract_player_count.
  destruct (search_players (unicode_decimal env) page) as [digits|];
    [ | discriminate ].
  destruct (int_of (unicode_decimal env) digits) as [m|] eqn:Hint;
    [ | discriminate ].
  cbn. intros [= <-]. apply int_of_bounds in Hint as [[H0 _] _]. exact H0.
Qed.

(** X16. Every record a run returns belongs to a tournament of the
    listing and a division: it is the record the stored file holds under
    the composite id, whatever its fields, or, when the file holds none,
    a record with that id, the name with the division in brackets, the
    date of the listing, the game of the run, the division, a count that
    is not negative if there is one, and the format of the run if it is
    not empty. *)
Theorem returned_records (env : environment) (fs : gmap pystr file)
    (base_url output_file game : pystr) (format : option pystr)
    (o : outcome) (e : event) :
  scrape_labs_events env fs base_url output_file game format = Ok o ->
  e ∈ returned o ->
  exists html ids names dates tournament_id name date division,
    fetch_html env (with_trailing_slash base_url) = Ok html
    /\ extract_labs_list_items env html = Ok (ids, names, dates)
    /\ (tournament_id, name, date) ∈ zip3 ids names dates
    /\ division ∈ divisions
    /\ let stored :=
         load_existing_events fs output_file
           !! (tournament_id ++ lit "_" ++ division) in
       (stored = Some e
        \/ (stored = None
            /\ ev_id e = Some (tournament_id ++ lit "_" ++ division)
            /\ ev_name e = name ++ lit " (" ++ division ++ lit ")"
            /\ ev_date e = date
            /\ ev_game e = game
            /\ ev_division e = Some division
            /\ (forall n, ev_player_count e = Some n -> 0 <= n)
            /\ ev_format e = match format with
                             | Some [] | None => None
                             | Some f => Some f
                             end)).
Proof.
  intros Hrun He.
  destruct (scrape_Ok_listing _ _ _ _ _ _ _ Hrun)
    as (html & ids & names & dates & Hfetch & Hlist).
  rewrite (scrape_with_listing _ _ _ _ _ _ _ _ _ _ Hfetch Hlist) in Hrun.
  injection Hrun as <-. cbn [returned] in He.
  rewrite sort_reverse_Permutation in He.
  apply elem_of_map in He as ([[[tournament_id name] date] division] & -> & Hp).
  apply elem_of_pairs in Hp as [Hitem Hdiv]. cbn [fst snd] in Hitem, Hdiv.
  exists html, ids, names, dates, tournament_id, name, date, division.
  split; [ exact Hfetch | ]. split; [ exact Hlist | ].
  split; [ exact Hitem | ]. split; [ exact Hdiv | ].
  cbv zeta. unfold record_for, pair_id, composite_id, tournament_of.
  cbn [fst snd].
  destruct (load_existing_events fs output_file !! _) as [cached|];
    [ left; reflexivity | right ].
  split; [ reflexivity | ]. unfold new_event.
  cbn [ev_id ev_name ev_date ev_game ev_division ev_player_count ev_format].
  repeat split.
  intros n Hn. exact (fetched_count_natural _ _ _ _ _ Hn).
Qed.

Lemma returned_records_witness :
  exists o,
    example_run two_tournaments ∅ = Ok o
    /\ forall e, e ∈ returned o -> ev_game e = lit "PTCG".
Proof.
  destruct (example_run two_tournaments ∅) as [o|err] eqn:Hrun.
  - exists o. split; [ reflexivity | ]. intros e He.
    destruct (returned_records _ _ _ _ _ _ o e Hrun He)
      as (html & ids & names & dates & t & n & d & division
          & _ & _ & _ & _ & [Hstored | (_ & _ & _ & _ & Hgame & _)]).
    + unfold load_existing_events in Hstored.
      rewrite lookup_empty in Hstored. rewrite lookup_empty in Hstored.
      discriminate Hstored.
    + exact Hgame.
  - vm_compute in Hrun. discriminate Hrun.
Defined.

(** ** The order of the output *)

Lemma key_lt_irrefl a : key_lt a a = false.
Proof.
  destruct (key_lt a a) eqn:E; [ | reflexivity ].
  rewrite (key_lt_asym _ _ E) in E. discriminate E.
Qed.

Lemma with_key_insert_sorted k x l :
  with_key k (insert_sorted x l) = with_key k (x :: l).
Proof.
  unfold with_key. induction l as [|y l IH]; cbn [insert_sorted].
  - reflexivity.
  - destruct (key_lt (sort_key y) (sort_key x)) eqn:Hyx; [ | reflexivity ].
    destruct (decide (sort_key y = k)) as [Hy|Hy].
    + assert (Hx : sort_key x <> k).
      { intros Hx. rewrite Hy, Hx, key_lt_irrefl in Hyx. discriminate Hyx. }
      rewrite (filter_cons_True _ y) by exact Hy. rewrite IH.
      rewrite !(filter_cons_False _ x) by exact Hx.
      rewrite (filter_cons_True _ y) by exact Hy. reflexivity.
    + rewrite (filter_cons_False _ y) by exact Hy. rewrite IH.
      destruct (decide (sort_key x = k)) as [Hx|Hx].
      * rewrite !(filter_cons_True _ x) by exact Hx.
        rewrite (filter_cons_False _ y) by exact Hy. reflexivity.
      * rewrite !(filter_cons_False _ x) by exact Hx.
        rewrite (filter_cons_False _ y) by exact Hy. reflexivity.
Qed.

Lemma with_key_stable_sort k l : with_key k (stable_sort l) = with_key k l.
Proof.
  induction l as [|x l IH]; cbn [stable_sort]; [ reflexivity | ].
  rewrite with_key_insert_sorted. unfold with_key in *.
  destruct (decide (sort_key x = k)) as [Hx|Hx].
  - rewrite !(filter_cons_True _ x) by exact Hx. rewrite IH. reflexivity.
  - rewrite !(filter_cons_False _ x) by exact Hx. exact IH.
Qed.

Lemma with_key_rev k l : with_key k (rev l) = rev (with_key k l).
Proof.
  unfold with_key. rewrite !rev_is_reverse. apply filter_reverse.
Qed.

(** X17. The sort of the output is stable: the records of one date and
    one division, which belong to different tournaments, stay in the
    order of the listing. *)
Theorem sort_keeps_listing_order (k : pystr * pystr) (l : list event) :
  with_key k (sort_reverse l) = with_key k l.
Proof.
  unfold sort_reverse.
  rewrite with_key_rev, with_key_stable_sort, with_key_rev.
  apply rev_involutive.
Qed.

Lemma stable_sort_ascending_id l :
  StronglySorted (fun a b => key_lt (sort_key b) (sort_key a) = false) l ->
  stable_sort l = l.
Proof.
  induction 1 as [|x l Hl IH Hx]; cbn [stable_sort]; [ reflexivity | ].
  rewrite IH. destruct Hx as [|y l Hy _]; cbn [insert_sorted].
  - reflexivity.
  - rewrite Hy. reflexivity.
Qed.

(** X18. A list that is already in the order of the output is left as
    it is by the sort: the records the run writes, read back in the
    order of the file and sorted again, are the same list. *)
Theorem sorted_output_is_kept (l : list event) :
  descending l -> sort_reverse l = l.
Proof.
  intros H. unfold sort_reverse.
  rewrite stable_sort_ascending_id; [ apply rev_involutive | ].
  apply (StronglySorted_rev
           (fun a b => key_lt (sort_key a) (sort_key b) = false)).
  exact H.
Qed.

Lemma sorted_output_is_kept_witness :
  exists o,
    example_run two_tournaments ∅ = Ok o
    /\ sort_reverse (returned o) = returned o.
Proof.
  destruct (example_run two_tournaments ∅) as [o|err] eqn:Ho.
  - exists o. split; [ reflexivity | ].
    apply (sorted_output_is_kept (returned o)).
    vm_compute in Ho. injection Ho as <-.
    cbn [returned]. unfold descending.
    repeat (constructor;
            [ | repeat (constructor; [ vm_compute; reflexivity | ]);
                constructor ]).
    constructor.
  - vm_compute in Ho. discriminate Ho.
Defined.

(** ** The base URL *)

Lemma endswith_snoc s c : endswith (s ++ [c]) c = true.
Proof. unfold endswith. rewrite last_snoc. apply N.eqb_refl. Qed.

(** X19. The base URL the run uses ends with a slash; the slash is added
    once, and only when it is missing, so that a base URL given with or
    without it starts the same run. *)
Theorem base_url_slash (env : environment) (fs : gmap pystr file)
    (base_url output_file game : pystr) (format : option pystr) :
  endswith (with_trailing_slash base_url) SLASH = true
  /\ with_trailing_slash (with_trailing_slash base_url)
     = with_trailing_slash base_url
  /\ with_trailing_slash (base_url ++ lit "/") = base_url ++ lit "/"
  /\ scrape_labs_events env fs (with_trailing_slash base_url)
       output_file game format
     = scrape_labs_events env fs base_url output_file game format.
Proof.
  assert (Hends : endswith (with_trailing_slash base_url) SLASH = true).
  { unfold with_trailing_slash.
    destruct (endswith base_url SLASH) eqn:E; [ exact E | ].
    apply endswith_snoc. }
  assert (Hidem : with_trailing_slash (with_trailing_slash base_url)
                  = with_trailing_slash base_url).
  { unfold with_trailing_slash at 1. rewrite Hends. reflexivity. }
  split; [ exact Hends | ]. split; [ exact Hidem | ]. split.
  - unfold with_trailing_slash. change (lit "/") with [SLASH].
    rewrite (endswith_snoc base_url SLASH). reflexivity.
  - unfold scrape_labs_events. rewrite Hidem. reflexivity.
Qed.

(** ** The date of a range *)




















End LabEventsMore.
